(** * realtime-py: the [Socket] of [realtime/connection.py]

    A shallow embedding of [realtime/connection.py]: the [Socket] object, its
    channel registry, the [ensure_connection] decorator, the listen loop and
    the heartbeat loop, over an explicit model of the websocket transport.

    Python statements become computations in a state-and-exception monad
    [M]; an exception carries the state reached when it was raised, because
    Python does not roll back assignments made before a [raise]. *)

From stdpp Require Import base option list strings gmap pretty.

Import (notations) Stdlib.Strings.Ascii.

Set Warnings "-register-all".

(** ** JSON values *)

(** What [json.loads] returns and [json.dumps] accepts. Objects keep their
    members in order, as Python dicts do. *)
Inductive json : Type :=
| JNull
| JBool (b : bool)
| JNum (n : Z)
| JStr (s : string)
| JArr (items : list json)
| JObj (members : list (string * json)).

(** [d.get(k)] on the members of a JSON object. *)
Fixpoint member (k : string) (kvs : list (string * json)) : option json :=
  match kvs with
  | [] => None
  | (k', v) :: rest =>
      match member k rest with
      | Some v' => Some v'          (* a repeated key: the last one wins *)
      | None => if String.eqb k k' then Some v else None
      end
  end.

(** ** Exceptions *)

Inductive exn : Type :=
| NotConnectedError (func_name : string)  (* realtime.exceptions *)
| AttributeError (attr : string)
| NameError (name : string)
| ConnectionClosed                        (* websockets.exceptions *)
| Exception_ (msg : string)               (* raise Exception(msg) *)
| TransportError                          (* raised by websockets.connect / close *)
| JSONDecodeError
| TypeError
| CallbackError (code : nat).             (* raised by a user callback *)

(** ** Collaborators outside the repository

    [json] is the standard library's codec, the constants come from
    [realtime/message.py], and [appendParams] only calls [urllib]. They are
    taken as an interface. *)
Class Collaborators : Type := {
  json_loads : string -> option json;     (* None: JSONDecodeError *)
  json_dumps : json -> string;
  PHOENIX_CHANNEL : string;
  HEARTBEAT_PAYLOAD : json;
  ChannelEvents_reply : string;
  ChannelEvents_heartbeat : string;
  appendParams : string -> list (string * string) -> string
}.

(** ** Data model *)

(** Modelled from the spec: the envelope [Message] of [realtime/message.py],
    which is not among the sources. Fields [topic], [event], [payload],
    [ref]. *)
Record Message : Type := {
  msg_event : string;
  msg_payload : json;
  msg_ref : json;
  msg_topic : string
}.

(** A user callback: its identity, and how a call with a payload ends
    ([None]: it returns; [Some e]: it raises [e]). *)
Record Callback : Type := {
  cb_name : nat;
  cb_run : json -> option exn
}.

(** Modelled from the spec: a listener registration [{event, callback}] of
    [realtime/channel.py], which is not among the sources. *)
Record CallbackListener : Type := {
  callback : Callback;
  event : string
}.

(** Modelled from the spec: the [Channel] of [realtime/channel.py], which is
    not among the sources: a topic, join parameters and the ordered listener
    list. The back-reference to the owning socket is not represented: the
    model has one socket. *)
Record Channel : Type := {
  chan_topic : string;
  chan_params : list (string * string);
  listeners : list CallbackListener
}.

(** Channel objects live in a heap, the registry holds their addresses: the
    object [set_channel] returns is the one the registry lists. *)
Abbreviation addr := nat.

(** A websocket connection object, by identity. *)
Abbreviation handle := nat.

(** The attributes of a [Socket]. [ws_connection] is [None] while the
    attribute does not exist on the object. *)
Record Socket : Type := {
  url : string;
  channels : gmap string (list addr);
  connected : bool;
  params : list (string * string);
  hb_interval : nat;
  ws_connection : option handle;
  kept_alive : bool
}.

(** The transport: the [open] flag of every connection object created so
    far, and the frames sent, oldest first. *)
Record Transport : Type := {
  handles : list bool;
  wire : list (handle * string)
}.

Record State : Type := {
  self : Socket;
  heap : list Channel;
  net : Transport;
  calls : list (nat * json)        (* callback invocations, oldest first *)
}.

Definition is_open (h : handle) (t : Transport) : bool :=
  default false (handles t !! h).

(** ** The monad *)

Inductive Res (A : Type) : Type :=
| Ok (a : A) (st : State)
| Raise (e : exn) (st : State).
Arguments Ok {A} a st.
Arguments Raise {A} e st.

Definition M (A : Type) : Type := State -> Res A.

Definition ret {A} (a : A) : M A := fun st => Ok a st.

Definition bind {A B} (m : M A) (k : A -> M B) : M B :=
  fun st => match m st with
            | Ok a st' => k a st'
            | Raise e st' => Raise e st'
            end.

Definition raise {A} (e : exn) : M A := fun st => Raise e st.

(** [try: body / except <clauses>]: [handler e] is [None] when no clause
    matches [e], which then propagates. *)
Definition try_except {A} (body : M A) (handler : exn -> option (M A)) : M A :=
  fun st => match body st with
            | Ok a st' => Ok a st'
            | Raise e st' => match handler e with
                             | Some h => h st'
                             | None => Raise e st'
                             end
            end.

#[global] Instance M_ret : MRet M := @ret.
#[global] Instance M_bind : MBind M := fun A B k m => bind m k.

Definition state_of {A} (r : Res A) : State :=
  match r with Ok _ st => st | Raise _ st => st end.

(** [for x in l: body x] *)
Fixpoint for_each {A} (l : list A) (body : A -> M unit) : M unit :=
  match l with
  | [] => ret tt
  | x :: rest => body x ;; for_each rest body
  end.

(** [print(...)]: standard output is not part of the state. *)
Definition print : M unit := ret tt.

(** ** State access *)

Definition get_self : M Socket := fun st => Ok (self st) st.

Definition modify_self (f : Socket -> Socket) : M unit :=
  fun st => Ok tt {| self := f (self st); heap := heap st;
                     net := net st; calls := calls st |}.

Definition modify_net (f : Transport -> Transport) : M unit :=
  fun st => Ok tt {| self := self st; heap := heap st;
                     net := f (net st); calls := calls st |}.

Definition with_connected (b : bool) (s : Socket) : Socket :=
  {| url := url s; channels := channels s; connected := b; params := params s;
     hb_interval := hb_interval s; ws_connection := ws_connection s;
     kept_alive := kept_alive s |}.

Definition with_ws_connection (h : handle) (s : Socket) : Socket :=
  {| url := url s; channels := channels s; connected := connected s;
     params := params s; hb_interval := hb_interval s;
     ws_connection := Some h; kept_alive := kept_alive s |}.

Definition with_channels (m : gmap string (list addr)) (s : Socket) : Socket :=
  {| url := url s; channels := m; connected := connected s; params := params s;
     hb_interval := hb_interval s; ws_connection := ws_connection s;
     kept_alive := kept_alive s |}.

(** Reading [self.ws_connection]: the attribute is only annotated in
    [__init__] (line 54), so it exists once [connect] has assigned it. *)
Definition get_ws_connection : M handle :=
  fun st => match ws_connection (self st) with
            | Some h => Ok h st
            | None => Raise (AttributeError "ws_connection") st
            end.

(** ** The websocket transport *)

(** How one call of [websockets.connect] ends: it raises, or it returns a
    new connection object whose [open] flag is as given. *)
Inductive connect_outcome : Type :=
| Refused
| Established (opened : bool).

(** How one call of [close] ends. *)
Inductive close_outcome : Type :=
| Closes
| CloseFails.

Definition websockets_connect (o : connect_outcome) (u : string) : M handle :=
  fun st => match o with
            | Refused => Raise TransportError st
            | Established b =>
                Ok (length (handles (net st)))
                   {| self := self st; heap := heap st;
                      net := {| handles := handles (net st) ++ [b];
                                wire := wire (net st) |};
                      calls := calls st |}
            end.

(** [ws.open] *)
Definition ws_open (h : handle) : M bool :=
  fun st => Ok (is_open h (net st)) st.

(** [await ws.send(data)]: [ConnectionClosed] on a connection that is not
    open. *)
Definition ws_send (h : handle) (data : string) : M unit :=
  fun st => if is_open h (net st)
            then Ok tt {| self := self st; heap := heap st;
                          net := {| handles := handles (net st);
                                    wire := wire (net st) ++ [(h, data)] |};
                          calls := calls st |}
            else Raise ConnectionClosed st.

Definition mark_closed (h : handle) (t : Transport) : Transport :=
  {| handles := <[h := false]> (handles t); wire := wire t |}.

(** [await ws.close()] *)
Definition ws_close (o : close_outcome) (h : handle) : M unit :=
  match o with
  | Closes => modify_net (mark_closed h)
  | CloseFails => raise TransportError
  end.

(** The peer (or the network) closes the socket's current connection. *)
Definition peer_closes (st : State) : State :=
  match ws_connection (self st) with
  | Some h => {| self := self st; heap := heap st;
                 net := mark_closed h (net st); calls := calls st |}
  | None => st
  end.

(** ** Name resolution in [connection.py] *)

(** The names bound at module level (lines 1-37). *)
Definition module_globals : list string :=
  ["asyncio"; "json"; "logging"; "defaultdict"; "wraps"; "Any"; "Callable";
   "urlparse"; "urlencode"; "websockets"; "Channel"; "NotConnectedError";
   "HEARTBEAT_PAYLOAD"; "PHOENIX_CHANNEL"; "ChannelEvents"; "Message";
   "ensure_connection"; "appendParams"; "Socket"].

(** The builtins the module uses. *)
Definition builtins : list string :=
  ["print"; "dict"; "list"; "Exception"].

(** Evaluating the name [x] inside a function whose local variables bound so
    far are [locals]. *)
Definition load_name (locals : list string) (x : string) : M unit :=
  if bool_decide (x ∈ locals ++ module_globals ++ builtins)
  then mret tt
  else raise (NameError x).

(** ** The module [realtime/connection.py] *)

Section connection.
Context `{Collaborators}.

(** [ensure_connection] (lines 20-28): the wrapper raises
    [NotConnectedError(func.__name__)] unless [args[0].connected]. *)
Definition ensure_connection {A} (func_name : string) (func : M A) : M A :=
  fun st => if connected (self st)
            then func st
            else Raise (NotConnectedError func_name) st.

(** [Socket.__init__] (lines 38-55). Line 54 is an annotation without a
    value: it assigns nothing. *)
Definition Socket__init__ (u : string) (ps : list (string * string))
    (hb : nat) : Socket :=
  {| url := if bool_decide (ps = []) then u else appendParams u ps;
     channels := ∅;
     connected := false;
     params := ps;
     hb_interval := hb;
     ws_connection := None;
     kept_alive := false |}.

(** The state right after [Socket(u, ps, hb)]: no channel object, no
    connection object, nothing sent, no callback called. *)
Definition fresh (u : string) (ps : list (string * string)) (hb : nat) : State :=
  {| self := Socket__init__ u ps hb;
     heap := [];
     net := {| handles := []; wire := [] |};
     calls := [] |}.

(** [Socket.connect] (lines 97-105). *)
Definition connect (o : connect_outcome) : M unit :=
  s ← get_self;
  ws ← websockets_connect o (url s);
  opened ← ws_open ws;
  if opened : bool then
    print;;
    modify_self (with_ws_connection ws);;
    modify_self (with_connected true)
  else
    print;;
    raise (Exception_ "Connection Failed").

(** [Socket.disconnect] (lines 107-110). *)
Definition disconnect (o : close_outcome) : M unit :=
  ws ← get_ws_connection;
  ws_close o ws;;
  ws' ← get_ws_connection;
  _ ← ws_open ws';
  print;;
  modify_self (with_connected false).

(** [Socket.status] (lines 112-113). *)
Definition status : M bool :=
  ws ← get_ws_connection;
  ws_open ws.

(** The envelope [dict(topic=..., event=..., payload=..., ref=None)]. *)
Definition envelope (topic ev : string) (payload : json) : json :=
  JObj [("topic", JStr topic); ("event", JStr ev);
        ("payload", payload); ("ref", JNull)].

(** [asyncio.sleep(self.hb_interval)]: time is not part of the state. *)
Definition sleep : M unit :=
  _ ← get_self; mret tt.

(** One pass through the body of [while True] in [Socket._keep_alive]
    (lines 121-133). [o] is how the [connect] of the handler ends, if it is
    reached. The handler binds the exception [as e]. *)
Definition keep_alive_iteration (o : connect_outcome) : M unit :=
  try_except
    (print;;
     let data := envelope PHOENIX_CHANNEL ChannelEvents_heartbeat
                          HEARTBEAT_PAYLOAD in
     ws ← get_ws_connection;
     ws_send ws (json_dumps data);;
     sleep)
    (fun ex => match ex with
               | ConnectionClosed =>
                   Some (load_name ["self"; "data"; "e"] "e";;
                         print;;
                         connect o)
               | _ => None
               end).

(** What a round of the heartbeat loop meets: whether the peer has closed
    the connection since the last round, and how a reconnection would end. *)
Record round : Type := {
  peer_closed : bool;
  reconnect : connect_outcome
}.

(** Where a loop that does not return stands after the rounds given to it. *)
Inductive loop_result : Type :=
| Running (st : State)             (* suspended inside the loop *)
| Died (e : exn) (st : State).     (* left the loop with an exception *)

(** [Socket._keep_alive] (lines 115-133), run for the rounds of [script]. *)
Fixpoint _keep_alive (script : list round) (st : State) : loop_result :=
  match script with
  | [] => Running st
  | r :: rest =>
      match keep_alive_iteration (reconnect r)
              (if peer_closed r then peer_closes st else st) with
      | Ok _ st' => _keep_alive rest st'
      | Raise e st' => Died e st'
      end
  end.

(** [Socket.subscribe] (lines 135-146). The handler has no [as e]: the
    locals bound when it runs are [self], [topic] and [data]. *)
Definition subscribe (topic : string) : M unit :=
  try_except
    (let data := envelope topic "phx_join" (JObj []) in
     ws ← get_ws_connection;
     ws_send ws (json_dumps data);;
     print)
    (fun ex => match ex with
               | ConnectionClosed =>
                   Some (load_name ["self"; "topic"; "data"] "e";; print)
               | _ => None
               end).

(** Modelled from the spec: [Channel(socket, topic, params)] of
    [realtime/channel.py], which is not among the sources: a new channel
    object with an empty listener list. *)
Definition Channel_new (topic : string) (ps : list (string * string)) : M addr :=
  fun st => Ok (length (heap st))
               {| self := self st;
                  heap := heap st ++ [{| chan_topic := topic; chan_params := ps;
                                         listeners := [] |}];
                  net := net st; calls := calls st |}.

(** [self.channels[topic].append(chan)] on a [defaultdict(list)]. *)
Definition channels_append (topic : string) (chan : addr)
    (m : gmap string (list addr)) : gmap string (list addr) :=
  <[topic := default [] (m !! topic) ++ [chan]]> m.

(** [Socket.set_channel] (lines 148-158). *)
Definition set_channel (topic : string) : M addr :=
  ensure_connection "set_channel"
    (s ← get_self;
     chan ← Channel_new topic (params s);
     modify_self (fun s => with_channels (channels_append topic chan (channels s)) s);;
     mret chan).

(** Modelled from the spec: [Channel.on(event, callback)] of
    [realtime/channel.py], which is not among the sources: it appends a
    listener to the channel object at [chan]. *)
Definition on (chan : addr) (ev : string) (cb : Callback) : M unit :=
  fun st => Ok tt
    {| self := self st;
       heap := alter (fun c => {| chan_topic := chan_topic c;
                                  chan_params := chan_params c;
                                  listeners := listeners c ++
                                    [{| callback := cb; event := ev |}] |})
                     chan (heap st);
       net := net st; calls := calls st |}.

(** Modelled from the spec: the constructor [Message], called with the
    members of the decoded object as keyword arguments; [realtime/message.py]
    is not among the sources. The envelope needs [topic] and [event];
    [payload] defaults to an empty structure and [ref] to null. *)
Definition Message_new (d : json) : option Message :=
  match d with
  | JObj kvs =>
      match member "topic" kvs, member "event" kvs with
      | Some (JStr t), Some (JStr e) =>
          Some {| msg_event := e;
                  msg_payload := default (JObj []) (member "payload" kvs);
                  msg_ref := default JNull (member "ref" kvs);
                  msg_topic := t |}
      | _, _ => None
      end
  | _ => None
  end.

(** Line 75: [json.loads(msg)], then [Message] on its members. *)
Definition parse (raw : string) : M Message :=
  match json_loads raw with
  | None => raise JSONDecodeError
  | Some d => match Message_new d with
              | None => raise TypeError
              | Some msg => mret msg
              end
  end.

(** [await cl.callback(msg.payload)]: the call is recorded, then it returns
    or raises as the callback does. *)
Definition invoke (cb : Callback) (p : json) : M unit :=
  fun st =>
    let st' := {| self := self st; heap := heap st; net := net st;
                  calls := calls st ++ [(cb_name cb, p)] |} in
    match cb_run cb p with
    | None => Ok tt st'
    | Some e => Raise e st'
    end.

(** [channel.listeners] of the channel object at [a]. *)
Definition listeners_at (a : addr) : M (list CallbackListener) :=
  fun st => Ok (from_option listeners [] (heap st !! a)) st.

(** Lines 78-81: the two nested [for] loops. *)
Definition dispatch (msg : Message) : M unit :=
  s ← get_self;
  for_each (default [] (channels s !! msg_topic msg)) (fun channel =>
    ls ← listeners_at channel;
    for_each ls (fun cl =>
      if bool_decide (event cl = msg_event msg)
      then invoke (callback cl) (msg_payload msg)
      else mret tt)).

(** How an iteration of a loop hands over: to the next one, or out. *)
Inductive flow : Type := Next | Break.

(** The body of [async for msg in self.ws_connection] (lines 74-86). *)
Definition listen_iteration (raw : string) : M flow :=
  try_except
    (msg ← parse raw;
     if bool_decide (msg_event msg = ChannelEvents_reply)
     then mret Next
     else dispatch msg;; mret Next)
    (fun ex => match ex with
               | ConnectionClosed => Some (print;; mret Break)
               | _ => None
               end).

(** How the stream of incoming frames goes on after the frames given: more
    may come, the connection was closed normally (the iteration stops), or
    it broke (the iteration raises [ConnectionClosed]). *)
Inductive stream_end : Type := Pending | EndOfStream | Broken.

Inductive listen_status : Type := Listening | Returned.

Fixpoint listen_loop (ws : handle) (frames : list string) (fin : stream_end)
    : M listen_status :=
  match frames with
  | [] =>
      match fin with
      | Pending => mret Listening
      | EndOfStream => modify_net (mark_closed ws);; mret Returned
      | Broken => modify_net (mark_closed ws);; raise ConnectionClosed
      end
  | raw :: rest =>
      f ← listen_iteration raw;
      match f with
      | Next => listen_loop ws rest fin
      | Break => mret Returned
      end
  end.

(** [Socket.listen] (lines 68-86) on the incoming [frames]. *)
Definition listen (frames : list string) (fin : stream_end) : M listen_status :=
  ws ← get_ws_connection;
  listen_loop ws frames fin.

End connection.

(** ** Sequences of operations *)

(** What can happen to a socket: a method call, with the way the transport
    answers it, or the peer closing the connection. *)
Inductive op : Type :=
| Connect (o : connect_outcome)
| Disconnect (o : close_outcome)
| Status
| Subscribe (topic : string)
| SetChannel (topic : string)
| On (chan : addr) (ev : string) (cb : Callback)
| Listen (frames : list string) (fin : stream_end)
| KeepAlive (script : list round)
| PeerCloses.

Section run.
Context `{Collaborators}.

(** The state an operation leaves, whether it returns or raises. *)
Definition step (o : op) (st : State) : State :=
  match o with
  | Connect c => state_of (connect c st)
  | Disconnect c => state_of (disconnect c st)
  | Status => state_of (status st)
  | Subscribe topic => state_of (subscribe topic st)
  | SetChannel topic => state_of (set_channel topic st)
  | On chan ev cb => state_of (on chan ev cb st)
  | Listen frames fin => state_of (listen frames fin st)
  | KeepAlive script =>
      match _keep_alive script st with
      | Running st' => st'
      | Died _ st' => st'
      end
  | PeerCloses => peer_closes st
  end.

Definition run (ops : list op) (st : State) : State :=
  fold_left (fun st o => step o st) ops st.

End run.

(** Whether the socket holds a connection object that is open. *)
Definition transport_usable (st : State) : bool :=
  match ws_connection (self st) with
  | Some h => is_open h (net st)
  | None => false
  end.

(** The channel objects registered under [topic], in registry order. *)
Definition channels_for (st : State) (topic : string) : list Channel :=
  omap (fun a => heap st !! a) (default [] (channels (self st) !! topic)).

(** The listeners an envelope with [topic] and event [ev] is for: registry
    order among the channels, listener order within each. *)
Definition matching (st : State) (topic ev : string) : list CallbackListener :=
  c ← channels_for st topic;
  filter (fun cl => event cl = ev) (listeners c).

(** The record of one call of a listener's callback with payload [p]. *)
Definition call_of (p : json) (cl : CallbackListener) : nat * json :=
  (cb_name (callback cl), p).

Definition record_calls (cs : list (nat * json)) (st : State) : State :=
  {| self := self st; heap := heap st; net := net st;
     calls := calls st ++ cs |}.

(** The listeners of [cls] that get called when each call may raise: up to
    and including the first whose callback raises on [p]. *)
Fixpoint until_raise (p : json) (cls : list CallbackListener)
    : list CallbackListener :=
  match cls with
  | [] => []
  | cl :: rest =>
      match cb_run (callback cl) p with
      | None => cl :: until_raise p rest
      | Some _ => [cl]
      end
  end.

(** The exception the calls of [cls] end with, if one raises. *)
Fixpoint first_raise (p : json) (cls : list CallbackListener) : option exn :=
  match cls with
  | [] => None
  | cl :: rest =>
      match cb_run (callback cl) p with
      | None => first_raise p rest
      | Some e => Some e
      end
  end.

(** A statement sequence that ends normally ([None]) or with an exception. *)
Definition finish (r : option exn) (st : State) : Res unit :=
  match r with
  | None => Ok tt st
  | Some e => Raise e st
  end.

(** Every address in the registry is the address of a channel object. *)
Definition registry_wf (st : State) : Prop :=
  forall topic a,
    a ∈ default [] (channels (self st) !! topic) -> a < length (heap st).

(** The socket has never held a connection object. *)
Definition never_connected (st : State) : Prop :=
  ws_connection (self st) = None /\ connected (self st) = false.

(** The connection object of the socket exists in the transport, and a
    socket that is not [connected] holds no open one. *)
Definition connected_if_usable (st : State) : Prop :=
  (forall h, ws_connection (self st) = Some h ->
             h < length (handles (net st))) /\
  (connected (self st) = false -> transport_usable st = false).

(** The elementary state changes the operations are made of. *)
Inductive change : State -> State -> Prop :=
| change_calls st cs :
    change st (record_calls cs st)
| change_closed st h :
    change st {| self := self st; heap := heap st;
                 net := mark_closed h (net st); calls := calls st |}
| change_sent st h data :
    change st {| self := self st; heap := heap st;
                 net := {| handles := handles (net st);
                           wire := wire (net st) ++ [(h, data)] |};
                 calls := calls st |}
| change_new_handle st b :
    change st {| self := self st; heap := heap st;
                 net := {| handles := handles (net st) ++ [b];
                           wire := wire (net st) |};
                 calls := calls st |}
| change_connected st :
    change st {| self := with_connected true
                           (with_ws_connection (length (handles (net st)))
                                               (self st));
                 heap := heap st;
                 net := {| handles := handles (net st) ++ [true];
                           wire := wire (net st) |};
                 calls := calls st |}
| change_disconnected st h :
    ws_connection (self st) = Some h ->
    change st {| self := with_connected false (self st); heap := heap st;
                 net := mark_closed h (net st); calls := calls st |}
| change_channel st topic :
    change st {| self := with_channels
                           (channels_append topic (length (heap st))
                                            (channels (self st)))
                           (self st);
                 heap := heap st ++ [{| chan_topic := topic;
                                        chan_params := params (self st);
                                        listeners := [] |}];
                 net := net st; calls := calls st |}
| change_listener st chan ev cb :
    change st (state_of (on chan ev cb st)).

(** ** A codec and constants to run the model on

    An instance of the collaborators for concrete runs: a decoder and an
    encoder for the JSON the protocol uses (objects, arrays, strings without
    escapes, integers, [true], [false], [null]; anything else is refused),
    and the constants of the Phoenix protocol. *)
Module Codec.

Definition dquote : Ascii.ascii := Ascii.ascii_of_nat 34.
Definition backslash : Ascii.ascii := Ascii.ascii_of_nat 92.

Definition is_space (c : Ascii.ascii) : bool :=
  let n := Ascii.nat_of_ascii c in
  (n =? 32) || (n =? 9) || (n =? 10) || (n =? 13).

Fixpoint skip_space (s : string) : string :=
  match s with
  | String c rest => if is_space c then skip_space rest else s
  | EmptyString => s
  end.

(** The characters up to the closing quote, and what follows it. *)
Fixpoint scan_string (s : string) : option (string * string) :=
  match s with
  | EmptyString => None
  | String c rest =>
      if Ascii.eqb c dquote then Some (EmptyString, rest)
      else if Ascii.eqb c backslash then None
      else match scan_string rest with
           | Some (body, rest') => Some (String c body, rest')
           | None => None
           end
  end.

Definition digit (c : Ascii.ascii) : option Z :=
  let n := Ascii.nat_of_ascii c in
  if (48 <=? n) && (n <=? 57) then Some (Z.of_nat (n - 48)) else None.

Fixpoint scan_digits (acc : Z) (s : string) : Z * string :=
  match s with
  | String c rest =>
      match digit c with
      | Some d => scan_digits (10 * acc + d) rest
      | None => (acc, s)
      end
  | EmptyString => (acc, s)
  end.

Fixpoint strip_prefix (p s : string) : option string :=
  match p, s with
  | EmptyString, _ => Some s
  | String a p', String b s' => if Ascii.eqb a b then strip_prefix p' s' else None
  | String _ _, EmptyString => None
  end.

Definition scan_word (s : string) : option (json * string) :=
  match strip_prefix "null" s, strip_prefix "true" s, strip_prefix "false" s with
  | Some rest, _, _ => Some (JNull, rest)
  | _, Some rest, _ => Some (JBool true, rest)
  | _, _, Some rest => Some (JBool false, rest)
  | _, _, _ => None
  end.

Definition scan_number (s : string) : option (json * string) :=
  match s with
  | String c rest =>
      if Ascii.eqb c "-"%char then
        match rest with
        | String d _ => match digit d with
                        | Some _ => let '(n, r) := scan_digits 0 rest in
                                    Some (JNum (- n), r)
                        | None => None
                        end
        | EmptyString => None
        end
      else match digit c with
           | Some _ => let '(n, r) := scan_digits 0 s in Some (JNum n, r)
           | None => None
           end
  | EmptyString => None
  end.

Fixpoint value (fuel : nat) (s : string) : option (json * string) :=
  match fuel with
  | 0 => None
  | S fuel =>
      match skip_space s with
      | String c rest =>
          if Ascii.eqb c "{"%char then
            match skip_space rest with
            | String c' rest' =>
                if Ascii.eqb c' "}"%char then Some (JObj [], rest')
                else members fuel rest []
            | EmptyString => None
            end
          else if Ascii.eqb c "["%char then
            match skip_space rest with
            | String c' rest' =>
                if Ascii.eqb c' "]"%char then Some (JArr [], rest')
                else items fuel rest []
            | EmptyString => None
            end
          else if Ascii.eqb c dquote then
            match scan_string rest with
            | Some (str, rest') => Some (JStr str, rest')
            | None => None
            end
          else match scan_number (String c rest) with
               | Some r => Some r
               | None => scan_word (String c rest)
               end
      | EmptyString => None
      end
  end
with items (fuel : nat) (s : string) (acc : list json) : option (json * string) :=
  match fuel with
  | 0 => None
  | S fuel =>
      match value fuel s with
      | Some (v, rest) =>
          match skip_space rest with
          | String c rest' =>
              if Ascii.eqb c ","%char then items fuel rest' (acc ++ [v])
              else if Ascii.eqb c "]"%char then Some (JArr (acc ++ [v]), rest')
              else None
          | EmptyString => None
          end
      | None => None
      end
  end
with members (fuel : nat) (s : string) (acc : list (string * json))
    : option (json * string) :=
  match fuel with
  | 0 => None
  | S fuel =>
      match skip_space s with
      | String q rest =>
          if Ascii.eqb q dquote then
            match scan_string rest with
            | Some (k, rest1) =>
                match skip_space rest1 with
                | String c rest2 =>
                    if Ascii.eqb c ":"%char then
                      match value fuel rest2 with
                      | Some (v, rest3) =>
                          match skip_space rest3 with
                          | String c' rest4 =>
                              if Ascii.eqb c' ","%char then
                                members fuel rest4 (acc ++ [(k, v)])
                              else if Ascii.eqb c' "}"%char then
                                Some (JObj (acc ++ [(k, v)]), rest4)
                              else None
                          | EmptyString => None
                          end
                      | None => None
                      end
                    else None
                | EmptyString => None
                end
            | None => None
            end
          else None
      | EmptyString => None
      end
  end.

(** [json.loads] on the subset: one value, nothing but blanks after it. *)
Definition loads (s : string) : option json :=
  match value (2 * String.length s + 2) s with
  | Some (v, rest) =>
      match skip_space rest with
      | EmptyString => Some v
      | String _ _ => None
      end
  | None => None
  end.

Definition quoted (s : string) : string :=
  String dquote (s +:+ String dquote EmptyString).

(** [json.dumps]: members and items separated by a comma and a blank, a
    colon and a blank after a key. *)
Fixpoint dumps (v : json) : string :=
  match v with
  | JNull => "null"
  | JBool true => "true"
  | JBool false => "false"
  | JNum n => pretty n
  | JStr s => quoted s
  | JArr vs => "[" +:+ String.concat ", " (map dumps vs) +:+ "]"
  | JObj kvs =>
      "{" +:+ String.concat ", "
                (map (fun kv => quoted (fst kv) +:+ ": " +:+ dumps (snd kv)) kvs)
          +:+ "}"
  end.

(** [appendParams] for a URL without a query and parameters that need no
    escaping. *)
Definition append_params (u : string) (ps : list (string * string)) : string :=
  u +:+ "?" +:+ String.concat "&" (map (fun kv => fst kv +:+ "=" +:+ snd kv) ps).

Definition phoenix : Collaborators :=
  {| json_loads := loads;
     json_dumps := dumps;
     PHOENIX_CHANNEL := "phoenix";
     HEARTBEAT_PAYLOAD := JObj [("msg", JStr "ping")];
     ChannelEvents_reply := "phx_reply";
     ChannelEvents_heartbeat := "heartbeat";
     appendParams := append_params |}.

End Codec.

(** ** Concrete sockets *)

Module Scenario.

(** A callback that records its call and returns. *)
Definition recorder (n : nat) : Callback :=
  {| cb_name := n; cb_run := fun _ => None |}.

(** A callback that raises. *)
Definition faulty (n : nat) : Callback :=
  {| cb_name := n; cb_run := fun _ => Some (CallbackError n) |}.

(** A frame for topic [topic] with event [ev], as the server sends it. *)
Definition frame (topic ev : string) (payload : json) : string :=
  Codec.dumps (JObj [("topic", JStr topic); ("event", JStr ev);
                     ("payload", payload); ("ref", JNull)]).

Definition hi : json := JObj [("body", JStr "hi")].

(** The frame of the end-to-end scenario, and a reply frame. *)
Definition new_msg : string := frame "room:1" "new_msg" hi.
Definition reply : string := frame "room:1" "phx_reply" (JObj []).

(** A frame that is not JSON, and one that is JSON without a topic. *)
Definition garbage : string := "not json".
Definition topicless : string := Codec.dumps (JObj [("event", JStr "new_msg")]).

(** [Socket("ws://localhost:4000/socket/websocket")] *)
Definition new_socket : State :=
  @fresh Codec.phoenix "ws://localhost:4000/socket/websocket" [] 5.

(** The socket after a successful [connect()]. *)
Definition online : State :=
  @run Codec.phoenix [Connect (Established true)] new_socket.

(** Connected, then closed by the peer. *)
Definition dropped : State :=
  @run Codec.phoenix [Connect (Established true); PeerCloses] new_socket.

(** Connected, then disconnected. *)
Definition offline : State :=
  @run Codec.phoenix [Connect (Established true); Disconnect Closes] new_socket.

(** Connected, then one channel on [room:1] with a recording listener for
    [new_msg]. *)
Definition room : State :=
  @run Codec.phoenix
    [Connect (Established true); SetChannel "room:1";
     On 0 "new_msg" (recorder 7)] new_socket.

(** Connected, then two channels on [room:1]: the first with a listener that
    raises, the second with a recording listener. *)
Definition two_rooms : State :=
  @run Codec.phoenix
    [Connect (Established true); SetChannel "room:1"; SetChannel "room:1";
     On 0 "new_msg" (faulty 1); On 1 "new_msg" (recorder 2)] new_socket.

(** A callback that raises [ConnectionClosed], as one that sends on a
    closed connection does. *)
Definition hangup (n : nat) : Callback :=
  {| cb_name := n; cb_run := fun _ => Some ConnectionClosed |}.

(** Connected, one channel on [room:1] whose listener raises
    [ConnectionClosed]. *)
Definition hangup_room : State :=
  @run Codec.phoenix
    [Connect (Established true); SetChannel "room:1";
     On 0 "new_msg" (hangup 3)] new_socket.

(** A heartbeat round in which the peer leaves the connection alone, and
    one before which the peer closes it and the reconnection succeeds. *)
Definition quiet : round :=
  {| peer_closed := false; reconnect := Refused |}.

Definition closure_then_reconnect : round :=
  {| peer_closed := true; reconnect := Established true |}.

(** Connected twice in a row. *)
Definition reconnected : State :=
  @run Codec.phoenix
    [Connect (Established true); Connect (Established true)] new_socket.

End Scenario.

(** ** Frames, loops and the fixed attributes *)

Section frames.
Context `{Collaborators}.

(** The frame [_keep_alive] sends (lines 123-129). *)
Definition heartbeat_frame : string :=
  json_dumps (envelope PHOENIX_CHANNEL ChannelEvents_heartbeat
                       HEARTBEAT_PAYLOAD).

(** The frame [subscribe(topic)] sends (lines 137-143). *)
Definition join_frame (topic : string) : string :=
  json_dumps (envelope topic "phx_join" (JObj [])).


(** The callback calls a frame is for in state [st]: none for a frame that
    does not parse or for a reply, else one per matching listener. *)
Definition expected_calls (st : State) (raw : string) : list (nat * json) :=
  match json_loads raw with
  | Some d =>
      match Message_new d with
      | Some msg =>
          if bool_decide (msg_event msg = ChannelEvents_reply) then []
          else map (call_of (msg_payload msg))
                   (matching st (msg_topic msg) (msg_event msg))
      | None => []
      end
  | None => []
  end.

(** A frame that parses to an envelope and for which no callback raises. *)
Definition deliverable (st : State) (raw : string) : Prop :=
  exists d msg,
    json_loads raw = Some d /\ Message_new d = Some msg /\
    (msg_event msg = ChannelEvents_reply \/
     first_raise (msg_payload msg)
                 (matching st (msg_topic msg) (msg_event msg)) = None).

End frames.

(** The state after [data] went out on the connection object [h]. *)
Definition with_sent (frames : list (nat * string)) (st : State) : State :=
  {| self := self st; heap := heap st;
     net := {| handles := handles (net st);
               wire := wire (net st) ++ frames |};
     calls := calls st |}.

(** The state a loop is in, or was in when it died. *)
Definition loop_state (r : loop_result) : State :=
  match r with
  | Running st => st
  | Died _ st => st
  end.

(** The attributes of a socket that only [__init__] assigns. *)
Definition same_setup (s s' : Socket) : Prop :=
  url s' = url s /\ params s' = params s /\
  hb_interval s' = hb_interval s /\ kept_alive s' = kept_alive s.

(** Whether an operation is a registration: [set_channel] or [on]. *)
Definition registers (o : op) : bool :=
  match o with
  | SetChannel _ | On _ _ _ => true
  | _ => false
  end.

(** Whether an operation is [listen]. *)
Definition listens (o : op) : bool :=
  match o with
  | Listen _ _ => true
  | _ => false
  end.

(** The registry of a socket made with parameters [ps]: the addresses are
    those of channel objects, no address is listed twice under a topic, and
    the channel at an address listed under [topic] was made for [topic] with
    [ps]. *)
Definition registry_ok (ps : list (string * string)) (st : State) : Prop :=
  params (self st) = ps /\
  registry_wf st /\
  (forall topic, NoDup (default [] (channels (self st) !! topic))) /\
  (forall topic a c,
      a ∈ default [] (channels (self st) !! topic) ->
      heap st !! a = Some c ->
      chan_topic c = topic /\ chan_params c = ps).

(** ** [appendParams] (lines 30-35)

    [urllib] is outside the repository: its four functions are parameters.
    [urlparse] returns six components, of which the fifth is the query. The
    dicts are Python's: keys are unique and keep the place of their first
    insertion. *)
Module Url.

Record ParseResult : Type := {
  scheme : string;
  netloc : string;
  path : string;
  path_params : string;
  query : string;
  fragment : string
}.

(** [d[k] = v] *)
Fixpoint dict_set (k v : string) (d : list (string * string))
    : list (string * string) :=
  match d with
  | [] => [(k, v)]
  | (k', v') :: rest =>
      if bool_decide (k = k') then (k, v) :: rest
      else (k', v') :: dict_set k v rest
  end.

(** [d.update(items)] *)
Definition dict_update (d items : list (string * string))
    : list (string * string) :=
  fold_left (fun d kv => dict_set kv.1 kv.2 d) items d.

(** [dict(pairs)] *)
Definition dict (pairs : list (string * string)) : list (string * string) :=
  dict_update [] pairs.

(** [d.get(k)] *)
Fixpoint dict_get (k : string) (d : list (string * string)) : option string :=
  match d with
  | [] => None
  | (k', v) :: rest => if bool_decide (k = k') then Some v else dict_get k rest
  end.

(** The value of the last pair with key [k] in a list of pairs. *)
Definition last_value (k : string) (pairs : list (string * string))
    : option string :=
  dict_get k (reverse pairs).

Section appendParams.
Variable urlparse : string -> ParseResult.
Variable parse_qsl : string -> list (string * string).
Variable urlencode : list (string * string) -> string.
Variable urlunparse : ParseResult -> string.

(** Lines 32-33: the query of the URL as a dict, updated with [params]. *)
Definition merged_query (u : string) (ps : list (string * string))
    : list (string * string) :=
  dict_update (dict (parse_qsl (query (urlparse u)))) ps.

Definition appendParams (u : string) (ps : list (string * string)) : string :=
  let url_parts := urlparse u in
  urlunparse {| scheme := scheme url_parts;
                netloc := netloc url_parts;
                path := path url_parts;
                path_params := path_params url_parts;
                query := urlencode (merged_query u ps);
                fragment := fragment url_parts |}.

End appendParams.

End Url.

(** * Properties *)

Section properties.
Context `{Collaborators}.

Ltac unfold_m :=
  cbv [mbind M_bind bind mret M_ret ret raise try_except print sleep
       get_self modify_self modify_net get_ws_connection ws_open ws_send
       ws_close websockets_connect state_of].

Lemma is_open_new (t : Transport) (b : bool) :
  is_open (length (handles t))
          {| handles := handles t ++ [b]; wire := wire t |} = b.
Proof.
  unfold is_open. simpl. by rewrite list_lookup_middle.
Qed.

Lemma is_open_old (t : Transport) (b : bool) (h : handle) :
  h < length (handles t) ->
  is_open h {| handles := handles t ++ [b]; wire := wire t |} = is_open h t.
Proof.
  intros Hlt. unfold is_open. simpl. by rewrite lookup_app_l.
Qed.

Lemma is_open_mark_closed (h : handle) (t : Transport) :
  is_open h (mark_closed h t) = false.
Proof.
  unfold is_open, mark_closed. simpl.
  destruct (decide (h < length (handles t))) as [Hlt|Hge].
  - by rewrite list_lookup_insert_eq.
  - rewrite list_insert_ge by lia.
    by rewrite (lookup_ge_None_2 (handles t) h) by lia.
Qed.

Lemma is_open_mark_closed_le (h h' : handle) (t : Transport) :
  is_open h t = false -> is_open h (mark_closed h' t) = false.
Proof.
  intros Hc. destruct (decide (h = h')) as [->|Hne].
  - apply is_open_mark_closed.
  - unfold is_open, mark_closed in *. simpl.
    by rewrite list_lookup_insert_ne.
Qed.

Lemma e_not_bound_in_subscribe :
  "e" ∉ ["self"; "topic"; "data"] ++ module_globals ++ builtins.
Proof.
  intros Hin. apply (bool_decide_pack _) in Hin. vm_compute in Hin. done.
Qed.

Lemma e_bound_in_keep_alive :
  "e" ∈ ["self"; "data"; "e"] ++ module_globals ++ builtins.
Proof. set_solver. Qed.

(** ** [connect] *)

Lemma connect_established (st : State) :
  connect (Established true) st =
  Ok tt {| self := with_connected true
                     (with_ws_connection (length (handles (net st))) (self st));
           heap := heap st;
           net := {| handles := handles (net st) ++ [true];
                     wire := wire (net st) |};
           calls := calls st |}.
Proof.
  unfold connect. unfold_m. simpl. by rewrite is_open_new.
Qed.

Lemma connect_not_open (st : State) :
  connect (Established false) st =
  Raise (Exception_ "Connection Failed")
        {| self := self st; heap := heap st;
           net := {| handles := handles (net st) ++ [false];
                     wire := wire (net st) |};
           calls := calls st |}.
Proof.
  unfold connect. unfold_m. simpl. by rewrite is_open_new.
Qed.

Lemma connect_refused (st : State) :
  connect Refused st = Raise TransportError st.
Proof. reflexivity. Qed.

(** C7, as the code has it: a successful [connect] stores the new connection
    object and sets [connected]; a failed one raises, the transport's error
    or [Exception("Connection Failed")], and leaves every attribute of the
    socket as it was, [connected] and [ws_connection] included. *)
Theorem connect_success_or_unchanged (st : State) :
  (exists st',
      connect (Established true) st = Ok tt st' /\
      ws_connection (self st') = Some (length (handles (net st))) /\
      connected (self st') = true /\
      transport_usable st' = true) /\
  connect Refused st = Raise TransportError st /\
  (exists st',
      connect (Established false) st =
        Raise (Exception_ "Connection Failed") st' /\
      self st' = self st).
Proof.
  split; [|split].
  - eexists. split; [apply connect_established|].
    repeat split. unfold transport_usable. simpl. apply is_open_new.
  - apply connect_refused.
  - eexists. split; [apply connect_not_open|]. reflexivity.
Qed.

(** ** [disconnect] *)

Lemma disconnect_closes (st : State) (h : handle) :
  ws_connection (self st) = Some h ->
  disconnect Closes st =
  Ok tt {| self := with_connected false (self st); heap := heap st;
           net := mark_closed h (net st); calls := calls st |}.
Proof.
  intros Hws. unfold disconnect. unfold_m. simpl. rewrite Hws. simpl.
  by rewrite Hws.
Qed.

Lemma disconnect_close_fails (st : State) (h : handle) :
  ws_connection (self st) = Some h ->
  disconnect CloseFails st = Raise TransportError st.
Proof.
  intros Hws. unfold disconnect. unfold_m. by rewrite Hws.
Qed.

Lemma disconnect_no_attribute (st : State) (o : close_outcome) :
  ws_connection (self st) = None ->
  disconnect o st = Raise (AttributeError "ws_connection") st.
Proof.
  intros Hws. unfold disconnect. unfold_m. by rewrite Hws.
Qed.

(** C6, as the code has it: a [disconnect] that returns leaves
    [connected = false]; when the transport's [close] raises, the error
    leaves [disconnect] before the assignment and the state, [connected]
    included, is as it was. *)
Theorem disconnect_sets_connected_after_close (st : State) (h : handle) :
  ws_connection (self st) = Some h ->
  (exists st', disconnect Closes st = Ok tt st' /\
               connected (self st') = false) /\
  disconnect CloseFails st = Raise TransportError st.
Proof.
  intros Hws. split.
  - eexists. split; [by apply disconnect_closes|]. reflexivity.
  - by eapply disconnect_close_fails.
Qed.

(** ** [status] *)

Lemma status_no_attribute (st : State) :
  ws_connection (self st) = None ->
  status st = Raise (AttributeError "ws_connection") st.
Proof.
  intros Hws. unfold status. unfold_m. by rewrite Hws.
Qed.

(** ** [subscribe] and [set_channel] *)

Lemma subscribe_no_attribute (st : State) (topic : string) :
  ws_connection (self st) = None ->
  subscribe topic st = Raise (AttributeError "ws_connection") st.
Proof.
  intros Hws. unfold subscribe. unfold_m. by rewrite Hws.
Qed.

Lemma subscribe_closed (st : State) (topic : string) (h : handle) :
  ws_connection (self st) = Some h ->
  is_open h (net st) = false ->
  subscribe topic st = Raise (NameError "e") st.
Proof.
  intros Hws Hclosed. unfold subscribe. unfold_m. rewrite Hws, Hclosed.
  unfold load_name.
  by rewrite (bool_decide_eq_false_2 _ e_not_bound_in_subscribe).
Qed.

Lemma subscribe_open (st : State) (topic : string) (h : handle) :
  ws_connection (self st) = Some h ->
  is_open h (net st) = true ->
  subscribe topic st =
  Ok tt {| self := self st; heap := heap st;
           net := {| handles := handles (net st);
                     wire := wire (net st) ++
                       [(h, json_dumps (envelope topic "phx_join" (JObj [])))] |};
           calls := calls st |}.
Proof.
  intros Hws Hopen. unfold subscribe. unfold_m. by rewrite Hws, Hopen.
Qed.

Lemma set_channel_not_connected (st : State) (topic : string) :
  connected (self st) = false ->
  set_channel topic st = Raise (NotConnectedError "set_channel") st.
Proof.
  intros Hc. unfold set_channel, ensure_connection. by rewrite Hc.
Qed.

(** C9: when the [send] of [subscribe] raises [ConnectionClosed], the
    handler evaluates the name [e], which is bound neither in [subscribe] nor
    in the module: [subscribe] ends with [NameError] for [e], the state as
    it was, and the caught error is not logged. *)
Theorem subscribe_handler_NameError (st : State) (topic : string) (h : handle) :
  ws_connection (self st) = Some h ->
  is_open h (net st) = false ->
  ws_send h (json_dumps (envelope topic "phx_join" (JObj []))) st =
    Raise ConnectionClosed st /\
  subscribe topic st = Raise (NameError "e") st.
Proof.
  intros Hws Hclosed. split.
  - unfold ws_send. by rewrite Hclosed.
  - by eapply subscribe_closed.
Qed.

(** C1, against the code: with [connected = false], [set_channel] raises
    [NotConnectedError] and changes nothing, but [subscribe] carries no
    guard: it never raises [NotConnectedError], it fails on the transport
    attribute or in its handler, and on a connection object that is open it
    sends the join frame. *)
Theorem subscribe_not_guarded (st : State) (topic : string) :
  connected (self st) = false ->
  set_channel topic st = Raise (NotConnectedError "set_channel") st /\
  (forall name st', subscribe topic st <> Raise (NotConnectedError name) st') /\
  match ws_connection (self st) with
  | None => subscribe topic st = Raise (AttributeError "ws_connection") st
  | Some h =>
      if is_open h (net st)
      then exists st', subscribe topic st = Ok tt st' /\
                       wire (net st') = wire (net st) ++
                         [(h, json_dumps (envelope topic "phx_join" (JObj [])))]
      else subscribe topic st = Raise (NameError "e") st
  end.
Proof.
  intros Hc. split; [by apply set_channel_not_connected|].
  destruct (ws_connection (self st)) as [h|] eqn:Hws.
  - destruct (is_open h (net st)) eqn:Hopen.
    + rewrite (subscribe_open st topic h Hws Hopen). split; [done|].
      eexists. split; [reflexivity|]. reflexivity.
    + rewrite (subscribe_closed st topic h Hws Hopen). split; done.
  - rewrite (subscribe_no_attribute st topic Hws). split; done.
Qed.

(** ** Dispatch *)

Lemma record_calls_nil (st : State) : record_calls [] st = st.
Proof. destruct st. unfold record_calls. simpl. by rewrite app_nil_r. Qed.

Lemma record_calls_app (cs cs' : list (nat * json)) (st : State) :
  record_calls cs' (record_calls cs st) = record_calls (cs ++ cs') st.
Proof. unfold record_calls. simpl. by rewrite app_assoc. Qed.

Lemma first_raise_app (p : json) (l1 l2 : list CallbackListener) :
  first_raise p (l1 ++ l2) =
  match first_raise p l1 with
  | Some e => Some e
  | None => first_raise p l2
  end.
Proof.
  induction l1 as [|cl l1 IH]; [done|]. simpl.
  by destruct (cb_run (callback cl) p).
Qed.

Lemma until_raise_app (p : json) (l1 l2 : list CallbackListener) :
  until_raise p (l1 ++ l2) =
  match first_raise p l1 with
  | Some _ => until_raise p l1
  | None => l1 ++ until_raise p l2
  end.
Proof.
  induction l1 as [|cl l1 IH]; [done|]. simpl.
  destruct (cb_run (callback cl) p); [done|].
  rewrite IH. by destruct (first_raise p l1).
Qed.

Lemma until_raise_all (p : json) (l : list CallbackListener) :
  first_raise p l = None -> until_raise p l = l.
Proof.
  induction l as [|cl l IH]; [done|]. simpl.
  destruct (cb_run (callback cl) p); [done|]. intros Hl. by rewrite IH.
Qed.


(** The inner [for] loop (lines 79-81) over the listeners [ls]. *)
Lemma listeners_loop (ev : string) (p : json) (ls : list CallbackListener)
    (st : State) :
  for_each ls (fun cl => if bool_decide (event cl = ev)
                         then invoke (callback cl) p else mret tt) st =
  let cls := filter (fun cl => event cl = ev) ls in
  finish (first_raise p cls)
         (record_calls (map (call_of p) (until_raise p cls)) st).
Proof.
  revert st. induction ls as [|cl ls IH]; intros st; simpl.
  - by rewrite record_calls_nil.
  - unfold_m. case_bool_decide as Hev.
    + rewrite filter_cons_True by done. simpl. unfold invoke.
      destruct (cb_run (callback cl) p) as [e|]; [done|].
      rewrite IH. simpl. f_equal.
      unfold record_calls, call_of. simpl. by rewrite <- app_assoc.
    + rewrite filter_cons_False by done. apply IH.
Qed.

Lemma listeners_of_cons (ev : string) (hp : list Channel) (a : addr)
    (addrs : list addr) :
  omap (fun a => hp !! a) (a :: addrs) ≫=
    (fun c => filter (fun cl => event cl = ev) (listeners c)) =
  filter (fun cl => event cl = ev) (from_option listeners [] (hp !! a)) ++
  (omap (fun a => hp !! a) addrs ≫=
    (fun c => filter (fun cl => event cl = ev) (listeners c))).
Proof.
  change (omap (fun a => hp !! a) (a :: addrs))
    with (match hp !! a with
          | Some c => c :: omap (fun a => hp !! a) addrs
          | None => omap (fun a => hp !! a) addrs
          end).
  destruct (hp !! a); [by rewrite bind_cons|done].
Qed.

(** The outer [for] loop (lines 78-81) over the registry entry [addrs]. *)
Lemma channels_loop (ev : string) (p : json) (addrs : list addr) (st : State) :
  for_each addrs (fun channel =>
    ls ← listeners_at channel;
    for_each ls (fun cl => if bool_decide (event cl = ev)
                           then invoke (callback cl) p else mret tt)) st =
  let cls := omap (fun a => heap st !! a) addrs ≫=
             (fun c => filter (fun cl => event cl = ev) (listeners c)) in
  finish (first_raise p cls)
         (record_calls (map (call_of p) (until_raise p cls)) st).
Proof.
  revert st. induction addrs as [|a addrs IH]; intros st.
  - simpl. by rewrite record_calls_nil.
  - cbv zeta. rewrite listeners_of_cons, first_raise_app, until_raise_app.
    cbn [for_each].
    unfold mbind at 1. unfold M_bind at 1. unfold bind at 1.
    unfold mbind at 1. unfold M_bind at 1. unfold bind at 1.
    unfold listeners_at at 1.
    rewrite listeners_loop. cbv zeta.
    destruct (first_raise p (filter _ _)) as [e|] eqn:HF; [done|].
    cbn [finish]. rewrite IH. cbv zeta.
    rewrite (until_raise_all p _ HF), record_calls_app.
    by rewrite <- map_app.
Qed.

(** [dispatch] calls the matching listeners in order, up to the first call
    that raises. *)
Lemma dispatch_calls (msg : Message) (st : State) :
  dispatch msg st =
  let cls := matching st (msg_topic msg) (msg_event msg) in
  finish (first_raise (msg_payload msg) cls)
         (record_calls (map (call_of (msg_payload msg))
                            (until_raise (msg_payload msg) cls)) st).
Proof.
  unfold dispatch. unfold mbind at 1. unfold M_bind, bind, get_self.
  apply channels_loop.
Qed.

Lemma parse_ok (raw : string) (d : json) (msg : Message) (st : State) :
  json_loads raw = Some d -> Message_new d = Some msg ->
  parse raw st = Ok msg st.
Proof. intros Hd Hm. unfold parse. by rewrite Hd, Hm. Qed.

(** One frame with a well-formed envelope that is no reply. *)
Lemma listen_iteration_dispatch (raw : string) (d : json) (msg : Message)
    (st : State) :
  json_loads raw = Some d -> Message_new d = Some msg ->
  msg_event msg <> ChannelEvents_reply ->
  listen_iteration raw st =
  let cls := matching st (msg_topic msg) (msg_event msg) in
  let st' := record_calls (map (call_of (msg_payload msg))
                               (until_raise (msg_payload msg) cls)) st in
  match first_raise (msg_payload msg) cls with
  | None => Ok Next st'
  | Some ConnectionClosed => Ok Break st'
  | Some e => Raise e st'
  end.
Proof.
  intros Hd Hm Hev. unfold listen_iteration, try_except.
  unfold mbind at 1. unfold M_bind, bind. rewrite (parse_ok raw d msg st Hd Hm).
  rewrite bool_decide_eq_false_2 by done.
  unfold mbind at 1. unfold M_bind, bind. rewrite dispatch_calls. simpl.
  destruct (first_raise _ _) as [e|]; [|done]. simpl. by destruct e.
Qed.

Lemma listen_iteration_reply (raw : string) (d : json) (msg : Message)
    (st : State) :
  json_loads raw = Some d -> Message_new d = Some msg ->
  msg_event msg = ChannelEvents_reply ->
  listen_iteration raw st = Ok Next st.
Proof.
  intros Hd Hm Hev. unfold listen_iteration, try_except.
  unfold mbind at 1. unfold M_bind, bind. rewrite (parse_ok raw d msg st Hd Hm).
  by rewrite bool_decide_eq_true_2.
Qed.

Lemma listen_iteration_not_json (raw : string) (st : State) :
  json_loads raw = None ->
  listen_iteration raw st = Raise JSONDecodeError st.
Proof.
  intros Hd. unfold listen_iteration, try_except.
  unfold mbind at 1. unfold M_bind, bind, parse. by rewrite Hd.
Qed.

Lemma listen_iteration_no_envelope (raw : string) (d : json) (st : State) :
  json_loads raw = Some d -> Message_new d = None ->
  listen_iteration raw st = Raise TypeError st.
Proof.
  intros Hd Hm. unfold listen_iteration, try_except.
  unfold mbind at 1. unfold M_bind, bind, parse. by rewrite Hd, Hm.
Qed.

Lemma listen_loop_cons (ws : handle) (raw : string) (rest : list string)
    (fin : stream_end) (st : State) :
  listen_loop ws (raw :: rest) fin st =
  match listen_iteration raw st with
  | Ok Next st' => listen_loop ws rest fin st'
  | Ok Break st' => Ok Returned st'
  | Raise e st' => Raise e st'
  end.
Proof.
  cbn [listen_loop]. unfold mbind at 1. unfold M_bind, bind.
  destruct (listen_iteration raw st) as [[] st'|e st']; reflexivity.
Qed.

Lemma listen_with_connection (frames : list string) (fin : stream_end)
    (st : State) (h : handle) :
  ws_connection (self st) = Some h ->
  listen frames fin st = listen_loop h frames fin st.
Proof.
  intros Hws. unfold listen. unfold mbind at 1.
  unfold M_bind, bind, get_ws_connection. by rewrite Hws.
Qed.

Lemma listen_no_attribute (frames : list string) (fin : stream_end)
    (st : State) :
  ws_connection (self st) = None ->
  listen frames fin st = Raise (AttributeError "ws_connection") st.
Proof.
  intros Hws. unfold listen. unfold mbind at 1.
  unfold M_bind, bind, get_ws_connection. by rewrite Hws.
Qed.

(** C4: a frame whose envelope carries the reply event calls no callback,
    whatever its topic and whatever is registered: the iteration leaves the
    state as it was and the loop goes on with the next frame. *)
Theorem reply_never_dispatched (st : State) (raw : string) (d : json)
    (msg : Message) (ws : handle) (rest : list string) (fin : stream_end) :
  json_loads raw = Some d -> Message_new d = Some msg ->
  msg_event msg = ChannelEvents_reply ->
  listen_iteration raw st = Ok Next st /\
  calls (state_of (listen_iteration raw st)) = calls st /\
  listen_loop ws (raw :: rest) fin st = listen_loop ws rest fin st.
Proof.
  intros Hd Hm Hev.
  pose proof (listen_iteration_reply raw d msg st Hd Hm Hev) as Hit.
  split; [done|]. split.
  - by rewrite Hit.
  - by rewrite listen_loop_cons, Hit.
Qed.

(** C2, as the code has it: a frame that is not JSON, or whose JSON is no
    envelope, makes [listen] raise the decoding error: the only handler of
    the loop body is for [ConnectionClosed]. The loop ends there, with the
    state as it was, and the frames after it are not read. *)
Theorem parse_failure_ends_listen (st : State) (raw : string)
    (rest : list string) (fin : stream_end) (h : handle) :
  ws_connection (self st) = Some h ->
  (json_loads raw = None ->
   listen (raw :: rest) fin st = Raise JSONDecodeError st) /\
  (forall d, json_loads raw = Some d -> Message_new d = None ->
   listen (raw :: rest) fin st = Raise TypeError st).
Proof.
  intros Hws. rewrite (listen_with_connection _ _ _ _ Hws), listen_loop_cons.
  split.
  - intros Hd. by rewrite listen_iteration_not_json.
  - intros d Hd Hm. by rewrite (listen_iteration_no_envelope raw d).
Qed.

(** ** The registry *)


Lemma set_channel_connected (st : State) (topic : string) :
  connected (self st) = true ->
  set_channel topic st =
  Ok (length (heap st))
     {| self := with_channels
                  (channels_append topic (length (heap st)) (channels (self st)))
                  (self st);
        heap := heap st ++ [{| chan_topic := topic;
                               chan_params := params (self st);
                               listeners := [] |}];
        net := net st; calls := calls st |}.
Proof.
  intros Hc. unfold set_channel, ensure_connection. by rewrite Hc.
Qed.




(** ** The heartbeat loop *)

Lemma keep_alive_iteration_no_attribute (o : connect_outcome) (st : State) :
  ws_connection (self st) = None ->
  keep_alive_iteration o st = Raise (AttributeError "ws_connection") st.
Proof.
  intros Hws. unfold keep_alive_iteration. unfold_m. by rewrite Hws.
Qed.

Lemma keep_alive_iteration_open (o : connect_outcome) (st : State)
    (h : handle) :
  ws_connection (self st) = Some h ->
  is_open h (net st) = true ->
  keep_alive_iteration o st =
  Ok tt {| self := self st; heap := heap st;
           net := {| handles := handles (net st);
                     wire := wire (net st) ++
                       [(h, json_dumps (envelope PHOENIX_CHANNEL
                                          ChannelEvents_heartbeat
                                          HEARTBEAT_PAYLOAD))] |};
           calls := calls st |}.
Proof.
  intros Hws Hopen. unfold keep_alive_iteration. unfold_m.
  by rewrite Hws, Hopen.
Qed.

Lemma keep_alive_iteration_closed (o : connect_outcome) (st : State)
    (h : handle) :
  ws_connection (self st) = Some h ->
  is_open h (net st) = false ->
  keep_alive_iteration o st = connect o st.
Proof.
  intros Hws Hclosed. unfold keep_alive_iteration. unfold_m.
  rewrite Hws, Hclosed. unfold load_name.
  by rewrite (bool_decide_eq_true_2 _ e_bound_in_keep_alive).
Qed.

Lemma peer_closes_connection (st : State) (h : handle) :
  ws_connection (self st) = Some h ->
  ws_connection (self (peer_closes st)) = Some h /\
  is_open h (net (peer_closes st)) = false.
Proof.
  intros Hws. unfold peer_closes. rewrite Hws. simpl.
  split; [done|]. apply is_open_mark_closed.
Qed.

Lemma peer_closes_self (st : State) : self (peer_closes st) = self st.
Proof. unfold peer_closes. by destruct (ws_connection (self st)). Qed.

Lemma peer_closes_wire (st : State) :
  wire (net (peer_closes st)) = wire (net st).
Proof. unfold peer_closes. by destruct (ws_connection (self st)). Qed.




(** ** What the operations change *)

Lemma listen_iteration_records (raw : string) (st : State) :
  exists cs, state_of (listen_iteration raw st) = record_calls cs st.
Proof.
  destruct (json_loads raw) as [d|] eqn:Hd.
  - destruct (Message_new d) as [msg|] eqn:Hm.
    + destruct (decide (msg_event msg = ChannelEvents_reply)) as [Hev|Hev].
      * exists []. rewrite (listen_iteration_reply raw d msg st Hd Hm Hev).
        by rewrite record_calls_nil.
      * rewrite (listen_iteration_dispatch raw d msg st Hd Hm Hev).
        cbv zeta. eexists.
        destruct (first_raise _ _) as [e|]; [|reflexivity].
        destruct e; reflexivity.
    + exists []. rewrite (listen_iteration_no_envelope raw d st Hd Hm).
      by rewrite record_calls_nil.
  - exists []. rewrite (listen_iteration_not_json raw st Hd).
    by rewrite record_calls_nil.
Qed.

Lemma listen_loop_changes (ws : handle) (frames : list string)
    (fin : stream_end) (st : State) :
  rtc change st (state_of (listen_loop ws frames fin st)).
Proof.
  revert st. induction frames as [|raw rest IH]; intros st.
  - destruct fin; simpl.
    + apply rtc_refl.
    + apply rtc_once, change_closed.
    + apply rtc_once, change_closed.
  - rewrite listen_loop_cons.
    destruct (listen_iteration_records raw st) as [cs Hcs].
    destruct (listen_iteration raw st) as [[] st'|e st']; simpl in Hcs;
      subst st'.
    + eapply rtc_l; [apply change_calls|]. apply IH.
    + apply rtc_once, change_calls.
    + apply rtc_once, change_calls.
Qed.

Lemma connect_changes (o : connect_outcome) (st : State) :
  rtc change st (state_of (connect o st)).
Proof.
  destruct o as [|[]].
  - apply rtc_refl.
  - rewrite connect_established. apply rtc_once, change_connected.
  - rewrite connect_not_open. apply rtc_once, change_new_handle.
Qed.

Lemma peer_closes_changes (st : State) : rtc change st (peer_closes st).
Proof.
  unfold peer_closes. destruct (ws_connection (self st)).
  - apply rtc_once, change_closed.
  - apply rtc_refl.
Qed.

Lemma keep_alive_iteration_changes (o : connect_outcome) (st : State) :
  rtc change st (state_of (keep_alive_iteration o st)).
Proof.
  destruct (ws_connection (self st)) as [h|] eqn:Hws.
  - destruct (is_open h (net st)) eqn:Hopen.
    + rewrite (keep_alive_iteration_open _ _ _ Hws Hopen).
      apply rtc_once, change_sent.
    + rewrite (keep_alive_iteration_closed _ _ _ Hws Hopen).
      apply connect_changes.
  - rewrite (keep_alive_iteration_no_attribute _ _ Hws). apply rtc_refl.
Qed.

Lemma keep_alive_changes (script : list round) (st : State) :
  rtc change st
    match _keep_alive script st with
    | Running st' => st'
    | Died _ st' => st'
    end.
Proof.
  revert st. induction script as [|r script IH]; intros st.
  - apply rtc_refl.
  - cbn [_keep_alive].
    set (st0 := if peer_closed r then peer_closes st else st).
    assert (H0 : rtc change st st0).
    { unfold st0. destruct (peer_closed r); [apply peer_closes_changes|].
      apply rtc_refl. }
    pose proof (keep_alive_iteration_changes (reconnect r) st0) as H1.
    destruct (keep_alive_iteration (reconnect r) st0) as [[] st1|e st1];
      simpl in H1.
    + etrans; [exact H0|]. etrans; [exact H1|]. apply IH.
    + by etrans.
Qed.

Lemma step_changes (o : op) (st : State) : rtc change st (step o st).
Proof.
  destruct o as [c|c| |topic|topic|chan ev cb|frames fin|script| ];
    cbn [step].
  - apply connect_changes.
  - destruct (ws_connection (self st)) as [h|] eqn:Hws.
    + destruct c.
      * rewrite (disconnect_closes _ _ Hws).
        by apply rtc_once, change_disconnected.
      * rewrite (disconnect_close_fails _ _ Hws). apply rtc_refl.
    + rewrite (disconnect_no_attribute _ _ Hws). apply rtc_refl.
  - unfold status. unfold_m.
    destruct (ws_connection (self st)); apply rtc_refl.
  - destruct (ws_connection (self st)) as [h|] eqn:Hws.
    + destruct (is_open h (net st)) eqn:Hopen.
      * rewrite (subscribe_open _ _ _ Hws Hopen).
        apply rtc_once, change_sent.
      * rewrite (subscribe_closed _ _ _ Hws Hopen). apply rtc_refl.
    + rewrite (subscribe_no_attribute _ _ Hws). apply rtc_refl.
  - destruct (connected (self st)) eqn:Hc.
    + rewrite (set_channel_connected _ _ Hc).
      apply rtc_once, change_channel.
    + rewrite (set_channel_not_connected _ _ Hc). apply rtc_refl.
  - apply rtc_once, change_listener.
  - destruct (ws_connection (self st)) as [h|] eqn:Hws.
    + rewrite (listen_with_connection _ _ _ _ Hws).
      apply listen_loop_changes.
    + rewrite (listen_no_attribute _ _ _ Hws). apply rtc_refl.
  - apply keep_alive_changes.
  - apply peer_closes_changes.
Qed.

Lemma run_changes (ops : list op) (st : State) : rtc change st (run ops st).
Proof.
  revert st. induction ops as [|o ops IH]; intros st.
  - apply rtc_refl.
  - cbn [run fold_left]. etrans; [apply step_changes|]. apply IH.
Qed.

Lemma changes_preserve (P : State -> Prop) :
  (forall st st', change st st' -> P st -> P st') ->
  forall st st', rtc change st st' -> P st -> P st'.
Proof.
  intros Hstep st st' Hrtc. induction Hrtc as [|st st1 st2 Hc _ IH]; [done|].
  intros HP. apply IH. by eapply Hstep.
Qed.

(** ** Invariants of the reachable states *)

Lemma change_connected_if_usable (st st' : State) :
  change st st' -> connected_if_usable st -> connected_if_usable st'.
Proof.
  unfold connected_if_usable, transport_usable.
  intros Hc [Hlt Hoff].
  destruct Hc as [st cs|st h|st h data|st b|st|st h Hh|st topic|st chan ev cb];
    simpl.
  - done.
  - split.
    + intros h' Hws. unfold mark_closed. simpl. rewrite length_insert. auto.
    + intros Hconn. specialize (Hoff Hconn).
      destruct (ws_connection (self st)) as [h'|]; [|done].
      by apply is_open_mark_closed_le.
  - done.
  - split.
    + intros h' Hws. rewrite length_app. specialize (Hlt h' Hws). simpl. lia.
    + intros Hconn. specialize (Hoff Hconn).
      destruct (ws_connection (self st)) as [h'|] eqn:Hws; [|done].
      rewrite <- Hoff. apply (is_open_old (net st)). by apply Hlt.
  - split; [|done]. intros h' [= <-]. rewrite length_app. simpl. lia.
  - split.
    + intros h' Hws. unfold mark_closed. simpl. rewrite length_insert. auto.
    + intros _. rewrite Hh. apply is_open_mark_closed.
  - done.
  - done.
Qed.

Lemma change_registry_wf (st st' : State) :
  change st st' -> registry_wf st -> registry_wf st'.
Proof.
  unfold registry_wf. intros Hc Hwf. destruct Hc; simpl; try done.
  - intros topic' a. unfold channels_append. rewrite length_app. simpl.
    destruct (decide (topic = topic')) as [->|Hne].
    + rewrite lookup_insert_eq. simpl. intros Hin.
      apply elem_of_app in Hin as [Hin|Hin].
      * specialize (Hwf topic' a Hin). lia.
      * apply list_elem_of_singleton in Hin. lia.
    + rewrite lookup_insert_ne by done. intros Hin.
      specialize (Hwf topic' a Hin). lia.
  - intros topic' a Hin. rewrite length_alter. by eapply Hwf.
Qed.

Lemma fresh_connected_if_usable (u : string) (ps : list (string * string))
    (hb : nat) :
  connected_if_usable (fresh u ps hb).
Proof. split; [intros h [=]|done]. Qed.

Lemma fresh_registry_wf (u : string) (ps : list (string * string)) (hb : nat) :
  registry_wf (fresh u ps hb).
Proof.
  intros topic a. unfold fresh. simpl. rewrite lookup_empty. simpl.
  by intros ?%not_elem_of_nil.
Qed.

(** Every state a sequence of operations reaches from a new socket has a
    well-formed registry. *)
Lemma run_registry_wf (ops : list op) (u : string)
    (ps : list (string * string)) (hb : nat) :
  registry_wf (run ops (fresh u ps hb)).
Proof.
  eapply (changes_preserve registry_wf change_registry_wf);
    [apply run_changes|apply fresh_registry_wf].
Qed.

(** Every state a sequence of operations reaches from a new socket keeps
    [connected_if_usable]. *)
Lemma run_connected_if_usable (ops : list op) (u : string)
    (ps : list (string * string)) (hb : nat) :
  connected_if_usable (run ops (fresh u ps hb)).
Proof.
  eapply (changes_preserve connected_if_usable change_connected_if_usable);
    [apply run_changes|apply fresh_connected_if_usable].
Qed.

(** C5, as the code has it: in every state a sequence of operations
    reaches from a new socket, listen loops, heartbeat rounds and closures
    by the peer included, a socket whose connection object is open has
    [connected = true]. The converse is not maintained: nothing clears
    [connected] when the peer closes the connection. *)
Theorem usable_transport_implies_connected (ops : list op) (u : string)
    (ps : list (string * string)) (hb : nat) :
  transport_usable (run ops (fresh u ps hb)) = true ->
  connected (self (run ops (fresh u ps hb))) = true.
Proof.
  intros Husable.
  destruct (run_connected_if_usable ops u ps hb) as [_ Hoff].
  destruct (connected (self (run ops (fresh u ps hb)))); [done|].
  rewrite Hoff in Husable; done.
Qed.

(** In a reachable state with [connected = false], [subscribe] raises on
    the missing attribute or in its handler, and leaves the state, the wire
    included, as it was. *)
Lemma subscribe_while_disconnected (ops : list op) (u : string)
    (ps : list (string * string)) (hb : nat) (topic : string) :
  let st := run ops (fresh u ps hb) in
  connected (self st) = false ->
  subscribe topic st = Raise (AttributeError "ws_connection") st \/
  subscribe topic st = Raise (NameError "e") st.
Proof.
  intros st Hc.
  destruct (run_connected_if_usable ops u ps hb) as [_ Hoff].
  fold st in Hoff. specialize (Hoff Hc). unfold transport_usable in Hoff.
  destruct (ws_connection (self st)) as [h|] eqn:Hws.
  - right. by eapply subscribe_closed.
  - left. by apply subscribe_no_attribute.
Qed.

(** ** A socket that never connected *)

Lemma fresh_never_connected (u : string) (ps : list (string * string))
    (hb : nat) :
  never_connected (fresh u ps hb).
Proof. by split. Qed.

Lemma keep_alive_no_attribute (r : round) (script : list round) (st : State) :
  ws_connection (self st) = None ->
  _keep_alive (r :: script) st = Died (AttributeError "ws_connection") st.
Proof.
  intros Hws. cbn [_keep_alive].
  assert (Hsame : (if peer_closed r then peer_closes st else st) = st).
  { destruct (peer_closed r); [|done]. unfold peer_closes. by rewrite Hws. }
  by rewrite Hsame, (keep_alive_iteration_no_attribute _ _ Hws).
Qed.

Lemma step_never_connected (o : op) (st : State) :
  o <> Connect (Established true) ->
  never_connected st -> never_connected (step o st).
Proof.
  intros Ho [Hws Hc].
  destruct o as [c|c| |topic|topic|chan ev cb|frames fin|script| ];
    cbn [step].
  - destruct c as [|[]]; [done|done|]. by rewrite connect_not_open.
  - by rewrite (disconnect_no_attribute _ _ Hws).
  - by rewrite (status_no_attribute _ Hws).
  - by rewrite (subscribe_no_attribute _ _ Hws).
  - by rewrite (set_channel_not_connected _ _ Hc).
  - done.
  - by rewrite (listen_no_attribute _ _ _ Hws).
  - destruct script as [|r script]; [done|].
    by rewrite (keep_alive_no_attribute _ _ _ Hws).
  - unfold peer_closes. by rewrite Hws.
Qed.

Lemma run_never_connected (ops : list op) (st : State) :
  Forall (fun o => o <> Connect (Established true)) ops ->
  never_connected st -> never_connected (run ops st).
Proof.
  revert st. induction ops as [|o ops IH]; intros st Hall Hnc; [done|].
  inversion Hall as [|? ? Ho Hall']; subst. cbn [run fold_left].
  apply IH; [done|]. by apply step_never_connected.
Qed.

(** C10: on a socket made by the constructor on which no [connect] has
    succeeded, whatever else was called, [status], [subscribe],
    [disconnect], [listen] and the heartbeat loop all end with
    [AttributeError] for [ws_connection], the state as it was: the
    constructor only annotates the attribute. In particular [status] does
    not return [False]. *)
Theorem never_connected_operations_fail (ops : list op) (u : string)
    (ps : list (string * string)) (hb : nat) :
  Forall (fun o => o <> Connect (Established true)) ops ->
  let st := run ops (fresh u ps hb) in
  status st = Raise (AttributeError "ws_connection") st /\
  status st <> Ok false st /\
  (forall topic,
      subscribe topic st = Raise (AttributeError "ws_connection") st) /\
  (forall o, disconnect o st = Raise (AttributeError "ws_connection") st) /\
  (forall frames fin,
      listen frames fin st = Raise (AttributeError "ws_connection") st) /\
  (forall r script,
      _keep_alive (r :: script) st =
        Died (AttributeError "ws_connection") st).
Proof.
  intros Hall st.
  destruct (run_never_connected ops (fresh u ps hb) Hall
              (fresh_never_connected u ps hb)) as [Hws _].
  fold st in Hws. repeat split.
  - by apply status_no_attribute.
  - by rewrite (status_no_attribute _ Hws).
  - intros topic. by apply subscribe_no_attribute.
  - intros o. by apply disconnect_no_attribute.
  - intros frames fin. by apply listen_no_attribute.
  - intros r script. by apply keep_alive_no_attribute.
Qed.

End properties.

(** * The properties on concrete sockets *)

Section scenarios.
Import Scenario.
#[local] Existing Instance Codec.phoenix.

Lemma subscribe_not_guarded_new_socket :
  connected (self new_socket) = false /\
  set_channel "room:1" new_socket =
    Raise (NotConnectedError "set_channel") new_socket /\
  subscribe "room:1" new_socket =
    Raise (AttributeError "ws_connection") new_socket.
Proof.
  split; [reflexivity|].
  destruct (subscribe_not_guarded new_socket "room:1" eq_refl)
    as (Hset & _ & Hsub).
  split; [exact Hset|exact Hsub].
Defined.

(** After [connect] and [disconnect], [subscribe] ends in its handler. *)
Example subscribe_offline :
  connected (self offline) = false /\
  subscribe "room:1" offline = Raise (NameError "e") offline.
Proof. split; vm_compute; reflexivity. Qed.

Lemma parse_failure_ends_listen_room :
  json_loads garbage = None /\
  listen [garbage; new_msg] Pending room = Raise JSONDecodeError room.
Proof.
  split; [reflexivity|].
  apply (proj1 (parse_failure_ends_listen room garbage [new_msg] Pending 0
                  eq_refl)).
  reflexivity.
Defined.

(** The claim C2 fails: the frame after a frame that does not parse is not
    processed, [listen] has ended with the decoding error; alone, the same
    frame reaches its listener. *)
Lemma malformed_frame_ends_listen_loop :
  json_loads garbage = None /\
  listen [garbage; new_msg] Pending room = Raise JSONDecodeError room /\
  Message_new (JObj [("event", JStr "new_msg")]) = None /\
  listen [topicless; new_msg] Pending room = Raise TypeError room /\
  listen [new_msg] Pending room = Ok Listening (record_calls [(7, hi)] room).
Proof. repeat split; vm_compute; reflexivity. Qed.



Lemma reply_never_dispatched_room :
  listen_iteration reply room = Ok Next room /\
  calls (state_of (listen_iteration reply room)) = calls room /\
  listen_loop 0 [reply; new_msg] Pending room =
    listen_loop 0 [new_msg] Pending room.
Proof.
  apply (reply_never_dispatched room reply
           (JObj [("topic", JStr "room:1"); ("event", JStr "phx_reply");
                  ("payload", JObj []); ("ref", JNull)])
           {| msg_event := "phx_reply"; msg_payload := JObj [];
              msg_ref := JNull; msg_topic := "room:1" |}).
  - vm_compute. reflexivity.
  - reflexivity.
  - reflexivity.
Defined.

Lemma usable_transport_implies_connected_online :
  transport_usable online = true /\ connected (self online) = true.
Proof.
  split; [reflexivity|].
  apply (usable_transport_implies_connected [Connect (Established true)]
           "ws://localhost:4000/socket/websocket" [] 5).
  reflexivity.
Defined.

(** The claim C5 fails: after the peer has closed the connection,
    [connected] is still true and the connection object is not open. *)
Lemma connected_after_peer_closes :
  dropped = run [Connect (Established true); PeerCloses] new_socket /\
  connected (self dropped) = true /\
  transport_usable dropped = false.
Proof. repeat split. Qed.

Lemma disconnect_sets_connected_after_close_online :
  (exists st', disconnect Closes online = Ok tt st' /\
               connected (self st') = false) /\
  disconnect CloseFails online = Raise TransportError online.
Proof.
  apply (disconnect_sets_connected_after_close online 0). reflexivity.
Defined.

(** The claim C6 fails: when [close] raises, [disconnect] raises too and
    [connected] is still true. *)
Lemma connected_after_failed_close :
  connected (self online) = true /\
  disconnect CloseFails online = Raise TransportError online /\
  connected (self (state_of (disconnect CloseFails online))) = true.
Proof. repeat split. Qed.

(** The claim C7 fails: a [connect] that fails on a socket whose
    [connected] is true, as the reconnection of the heartbeat loop does,
    leaves [connected = true]. *)
Lemma connected_after_failed_reconnect :
  connected (self dropped) = true /\
  connect Refused dropped = Raise TransportError dropped /\
  connected (self (state_of (connect Refused dropped))) = true /\
  (exists st', connect (Established false) dropped =
                 Raise (Exception_ "Connection Failed") st' /\
               connected (self st') = true).
Proof.
  repeat split. eexists. split; [apply connect_not_open|reflexivity].
Qed.



Lemma subscribe_handler_NameError_dropped :
  ws_send 0 (json_dumps (envelope "room:1" "phx_join" (JObj []))) dropped =
    Raise ConnectionClosed dropped /\
  subscribe "room:1" dropped = Raise (NameError "e") dropped.
Proof.
  apply (subscribe_handler_NameError dropped "room:1" 0); reflexivity.
Defined.

Lemma never_connected_operations_fail_refused :
  let st := run [Connect Refused; SetChannel "room:1"; Disconnect Closes;
                 Connect (Established false)] new_socket in
  status st = Raise (AttributeError "ws_connection") st /\
  status st <> Ok false st /\
  (forall topic,
      subscribe topic st = Raise (AttributeError "ws_connection") st) /\
  (forall o, disconnect o st = Raise (AttributeError "ws_connection") st) /\
  (forall frames fin,
      listen frames fin st = Raise (AttributeError "ws_connection") st) /\
  (forall r script,
      _keep_alive (r :: script) st =
        Died (AttributeError "ws_connection") st).
Proof.
  apply (never_connected_operations_fail
           [Connect Refused; SetChannel "room:1"; Disconnect Closes;
            Connect (Established false)]
           "ws://localhost:4000/socket/websocket" [] 5).
  repeat constructor; discriminate.
Defined.

(** The end-to-end scenario of the specification: connect, set a channel on
    [room:1], register a recording listener for [new_msg], subscribe (one
    [phx_join] frame goes out), receive one [new_msg] frame: the listener is
    called once with the payload. *)
Example end_to_end :
  let st := state_of (subscribe "room:1" room) in
  wire (net st) =
    [(0, Codec.dumps (envelope "room:1" "phx_join" (JObj [])))] /\
  calls (state_of (listen [new_msg] Pending st)) = [(7, hi)].
Proof. split; vm_compute; reflexivity. Qed.

End scenarios.

(** * Further properties of [connection.py] *)

Section coverage.
Context `{Collaborators}.

Lemma with_sent_nil (st : State) : with_sent [] st = st.
Proof.
  destruct st as [s hp [hs w] cs]. unfold with_sent. simpl.
  by rewrite app_nil_r.
Qed.

Lemma with_sent_app (fs fs' : list (nat * string)) (st : State) :
  with_sent fs' (with_sent fs st) = with_sent (fs ++ fs') st.
Proof. unfold with_sent. simpl. by rewrite app_assoc. Qed.

(** ** The heartbeat loop, round by round *)

Lemma keep_alive_round_open (r : round) (script : list round) (st : State)
    (h : handle) :
  ws_connection (self st) = Some h ->
  is_open h (net st) = true ->
  peer_closed r = false ->
  _keep_alive (r :: script) st =
  _keep_alive script (with_sent [(h, heartbeat_frame)] st).
Proof.
  intros Hws Hopen Hquiet. cbn [_keep_alive]. rewrite Hquiet.
  by rewrite (keep_alive_iteration_open _ _ _ Hws Hopen).
Qed.

Lemma keep_alive_quiet (script : list round) (st : State) (h : handle) :
  ws_connection (self st) = Some h ->
  is_open h (net st) = true ->
  Forall (fun r => peer_closed r = false) script ->
  _keep_alive script st =
  Running (with_sent (replicate (length script) (h, heartbeat_frame)) st).
Proof.
  revert st. induction script as [|r script IH]; intros st Hws Hopen Hall.
  - simpl. by rewrite with_sent_nil.
  - inversion Hall as [|? ? Hr Hall']; subst.
    rewrite (keep_alive_round_open _ _ _ _ Hws Hopen Hr).
    rewrite IH by done. by rewrite with_sent_app.
Qed.

Lemma keep_alive_round_reconnect (r : round) (script : list round)
    (st : State) (h : handle) :
  ws_connection (self st) = Some h ->
  is_open h (net (if peer_closed r then peer_closes st else st)) = false ->
  reconnect r = Established true ->
  exists st1,
    _keep_alive (r :: script) st = _keep_alive script st1 /\
    self st1 = with_connected true
                 (with_ws_connection (length (handles (net st))) (self st)) /\
    heap st1 = heap st /\ calls st1 = calls st /\
    wire (net st1) = wire (net st) /\
    is_open (length (handles (net st))) (net st1) = true.
Proof.
  intros Hws Hclosed Hr. cbn [_keep_alive].
  set (st0 := if peer_closed r then peer_closes st else st) in *.
  assert (Hst0 : self st0 = self st /\ heap st0 = heap st /\
                 calls st0 = calls st /\ wire (net st0) = wire (net st) /\
                 length (handles (net st0)) = length (handles (net st))).
  { unfold st0. destruct (peer_closed r); [|done]. unfold peer_closes.
    destruct (ws_connection (self st)); [|done]. simpl.
    by rewrite length_insert. }
  destruct Hst0 as (Hself & Hheap & Hcalls & Hwire & Hlen).
  assert (Hws0 : ws_connection (self st0) = Some h) by by rewrite Hself.
  rewrite (keep_alive_iteration_closed _ _ _ Hws0 Hclosed), Hr.
  rewrite connect_established. eexists. split; [reflexivity|]. simpl.
  rewrite Hself, Hlen. repeat split; try done.
  rewrite <- Hlen. apply is_open_new.
Qed.

(** X1. On an open connection that nobody closes, [n] rounds of the
    heartbeat loop send exactly [n] heartbeat frames on that connection, in
    a row after what was sent before, and change nothing else; the loop is
    still running. *)
Theorem keep_alive_sends_one_heartbeat_per_round (script : list round)
    (st : State) (h : handle) :
  ws_connection (self st) = Some h ->
  is_open h (net st) = true ->
  Forall (fun r => peer_closed r = false) script ->
  _keep_alive script st =
  Running {| self := self st; heap := heap st;
             net := {| handles := handles (net st);
                       wire := wire (net st) ++
                         replicate (length script) (h, heartbeat_frame) |};
             calls := calls st |}.
Proof. apply keep_alive_quiet. Qed.

Lemma keep_alive_wire (script : list round) (st : State) :
  exists frames,
    wire (net (loop_state (_keep_alive script st))) = wire (net st) ++ frames /\
    Forall (fun f => f.2 = heartbeat_frame) frames.
Proof.
  revert st. induction script as [|r script IH]; intros st.
  - exists []. simpl. by rewrite app_nil_r.
  - cbn [_keep_alive].
    set (st0 := if peer_closed r then peer_closes st else st).
    assert (Hwire : wire (net st0) = wire (net st)).
    { unfold st0. destruct (peer_closed r); [|done]. apply peer_closes_wire. }
    destruct (ws_connection (self st0)) as [h|] eqn:Hws.
    + destruct (is_open h (net st0)) eqn:Hopen.
      * rewrite (keep_alive_iteration_open _ _ _ Hws Hopen).
        edestruct IH as (frames & Hframes & Hall).
        exists ((h, heartbeat_frame) :: frames). split.
        -- rewrite Hframes. simpl. rewrite Hwire.
           by rewrite <- app_assoc.
        -- by constructor.
      * rewrite (keep_alive_iteration_closed _ _ _ Hws Hopen).
        destruct (reconnect r) as [|[]].
        -- exists []. rewrite connect_refused. simpl.
           by rewrite app_nil_r.
        -- rewrite connect_established.
           edestruct IH as (frames & Hframes & Hall).
           exists frames. split; [|done]. rewrite Hframes. simpl.
           by rewrite Hwire.
        -- exists []. rewrite connect_not_open. simpl.
           by rewrite app_nil_r, Hwire.
    + exists []. rewrite (keep_alive_iteration_no_attribute _ _ Hws). simpl.
      by rewrite app_nil_r.
Qed.

(** X2. Whatever happens to the connection, every frame the heartbeat loop
    puts on the wire is the heartbeat frame, added after the frames already
    there: a reconnection sends no join frame for the channels of the
    registry. *)
Theorem keep_alive_sends_only_heartbeats (script : list round) (st : State) :
  exists frames,
    wire (net (loop_state (_keep_alive script st))) = wire (net st) ++ frames /\
    Forall (fun f => f.2 = heartbeat_frame) frames.
Proof. apply keep_alive_wire. Qed.

(** X3. A round whose [send] finds the connection closed sends no
    heartbeat: it reconnects and the loop goes on at once with the new
    connection object. With a successful reconnection followed by [n] quiet
    rounds, exactly [n] heartbeats go out, all on the new connection, and
    [connected] is true. *)
Theorem keep_alive_heartbeats_after_reconnect (r : round)
    (script : list round) (st : State) (h : handle) :
  ws_connection (self st) = Some h ->
  is_open h (net (if peer_closed r then peer_closes st else st)) = false ->
  reconnect r = Established true ->
  Forall (fun r => peer_closed r = false) script ->
  exists st',
    _keep_alive (r :: script) st = Running st' /\
    ws_connection (self st') = Some (length (handles (net st))) /\
    connected (self st') = true /\
    wire (net st') =
      wire (net st) ++
      replicate (length script) (length (handles (net st)), heartbeat_frame).
Proof.
  intros Hws Hclosed Hr Hquiet.
  destruct (keep_alive_round_reconnect r script st h Hws Hclosed Hr)
    as (st1 & Hrun & Hself & _ & _ & Hwire & Hopen).
  assert (Hws1 : ws_connection (self st1) = Some (length (handles (net st))))
    by by rewrite Hself.
  rewrite Hrun, (keep_alive_quiet script st1 _ Hws1 Hopen Hquiet).
  eexists. split; [reflexivity|]. simpl. rewrite Hself, Hwire. done.
Qed.

(** X4. [disconnect] does not stop a heartbeat loop: the next round finds
    the connection closed, reconnects, and the socket is connected again,
    on a new connection object that is open; no heartbeat goes out in
    that round. *)
Theorem disconnect_does_not_stop_heartbeat (r : round) (st : State)
    (h : handle) :
  ws_connection (self st) = Some h ->
  reconnect r = Established true ->
  exists st1 st2,
    disconnect Closes st = Ok tt st1 /\
    connected (self st1) = false /\
    _keep_alive [r] st1 = Running st2 /\
    connected (self st2) = true /\
    ws_connection (self st2) = Some (length (handles (net st))) /\
    transport_usable st2 = true /\
    wire (net st2) = wire (net st).
Proof.
  intros Hws Hr.
  set (st1 := {| self := with_connected false (self st); heap := heap st;
                 net := mark_closed h (net st); calls := calls st |}).
  assert (Hws1 : ws_connection (self st1) = Some h) by done.
  assert (Hclosed : is_open h
            (net (if peer_closed r then peer_closes st1 else st1)) = false).
  { destruct (peer_closed r).
    - by apply peer_closes_connection.
    - apply is_open_mark_closed. }
  destruct (keep_alive_round_reconnect r [] st1 h Hws1 Hclosed Hr)
    as (st2 & Hrun & Hself & _ & _ & Hwire & Hopen).
  assert (Hlen : length (handles (net st1)) = length (handles (net st))).
  { unfold st1, mark_closed. simpl. by rewrite length_insert. }
  rewrite Hlen in Hself, Hopen.
  exists st1, st2. split; [by apply disconnect_closes|]. split; [done|].
  split; [exact Hrun|]. rewrite Hself. split; [done|]. split; [done|].
  split; [|exact Hwire].
  unfold transport_usable. by rewrite Hself.
Qed.

(** ** The listen loop *)

Lemma listen_loop_frame (ws : handle) (frames : list string)
    (fin : stream_end) (st : State) :
  self (state_of (listen_loop ws frames fin st)) = self st /\
  heap (state_of (listen_loop ws frames fin st)) = heap st /\
  wire (net (state_of (listen_loop ws frames fin st))) = wire (net st) /\
  exists cs, calls (state_of (listen_loop ws frames fin st)) = calls st ++ cs.
Proof.
  revert st. induction frames as [|raw rest IH]; intros st.
  - destruct fin; simpl; repeat split; exists []; by rewrite app_nil_r.
  - rewrite listen_loop_cons.
    destruct (listen_iteration_records raw st) as [cs Hcs].
    destruct (listen_iteration raw st) as [[] st'|e st']; simpl in Hcs;
      subst st'.
    + destruct (IH (record_calls cs st)) as (Hself & Hheap & Hwire & cs' & Hcs').
      rewrite Hself, Hheap, Hwire, Hcs'. repeat split.
      exists (cs ++ cs'). simpl. by rewrite app_assoc.
    + simpl. repeat split. by exists cs.
    + simpl. repeat split. by exists cs.
Qed.

Lemma listen_frame (frames : list string) (fin : stream_end) (st : State) :
  self (state_of (listen frames fin st)) = self st /\
  heap (state_of (listen frames fin st)) = heap st /\
  wire (net (state_of (listen frames fin st))) = wire (net st) /\
  exists cs, calls (state_of (listen frames fin st)) = calls st ++ cs.
Proof.
  destruct (ws_connection (self st)) as [h|] eqn:Hws.
  - rewrite (listen_with_connection _ _ _ _ Hws). apply listen_loop_frame.
  - rewrite (listen_no_attribute _ _ _ Hws). simpl. repeat split.
    exists []. by rewrite app_nil_r.
Qed.

(** X5. [listen] only reads: however it ends, it has changed no attribute
    of the socket ([connected] included), no channel object and nothing on
    the wire; the record of callback calls has only grown at its end. *)
Theorem listen_only_calls_callbacks (frames : list string) (fin : stream_end)
    (st : State) :
  self (state_of (listen frames fin st)) = self st /\
  heap (state_of (listen frames fin st)) = heap st /\
  wire (net (state_of (listen frames fin st))) = wire (net st) /\
  exists cs, calls (state_of (listen frames fin st)) = calls st ++ cs.
Proof. apply listen_frame. Qed.

Lemma listen_loop_app (ws : handle) (fs1 fs2 : list string)
    (fin : stream_end) (st : State) :
  listen_loop ws (fs1 ++ fs2) fin st =
  match listen_loop ws fs1 Pending st with
  | Ok Listening st' => listen_loop ws fs2 fin st'
  | other => other
  end.
Proof.
  revert st. induction fs1 as [|raw fs1 IH]; intros st; [done|].
  rewrite <- app_comm_cons, !listen_loop_cons.
  destruct (listen_iteration raw st) as [[] st'|e st']; [apply IH|done|done].
Qed.

(** X6. Frames are handled strictly one after the other: listening to
    [fs1] followed by [fs2] is listening to [fs1] and, if the loop is still
    waiting for a frame then, listening to [fs2] from the state reached;
    if it has returned or raised on [fs1], that is the result. *)
Theorem listen_in_arrival_order (fs1 fs2 : list string) (fin : stream_end)
    (st : State) :
  listen (fs1 ++ fs2) fin st =
  match listen fs1 Pending st with
  | Ok Listening st' => listen fs2 fin st'
  | other => other
  end.
Proof.
  destruct (ws_connection (self st)) as [h|] eqn:Hws.
  - rewrite !(listen_with_connection _ _ st h Hws), listen_loop_app.
    pose proof (listen_loop_frame h fs1 Pending st) as (Hself & _).
    destruct (listen_loop h fs1 Pending st) as [[] st'|e st']; try done.
    simpl in Hself. symmetry. apply listen_with_connection.
    by rewrite Hself.
  - by rewrite !(listen_no_attribute _ _ st Hws).
Qed.

(** X7. What a raising callback does to [listen]: when the first callback
    to raise for a frame raises [ConnectionClosed], [listen] returns, as if
    the connection had been closed; any other exception leaves [listen] as
    it is. Either way the frames after this one are not read, and the
    callbacks called are those up to the one that raised. *)
Theorem listen_callback_exception (st : State) (raw : string) (d : json)
    (msg : Message) (rest : list string) (fin : stream_end) (h : handle)
    (e : exn) :
  ws_connection (self st) = Some h ->
  json_loads raw = Some d -> Message_new d = Some msg ->
  msg_event msg <> ChannelEvents_reply ->
  first_raise (msg_payload msg)
              (matching st (msg_topic msg) (msg_event msg)) = Some e ->
  let st' := record_calls
               (map (call_of (msg_payload msg))
                    (until_raise (msg_payload msg)
                       (matching st (msg_topic msg) (msg_event msg)))) st in
  listen (raw :: rest) fin st =
  match e with
  | ConnectionClosed => Ok Returned st'
  | _ => Raise e st'
  end.
Proof.
  intros Hws Hd Hm Hev Hraise st'.
  rewrite (listen_with_connection _ _ _ _ Hws), listen_loop_cons.
  rewrite (listen_iteration_dispatch raw d msg st Hd Hm Hev). cbv zeta.
  rewrite Hraise. fold st'. by destruct e.
Qed.

(** ** What each operation leaves alone *)

Ltac run_m :=
  cbv [mbind M_bind bind mret M_ret ret raise try_except print sleep
       get_self modify_self modify_net get_ws_connection ws_open ws_send
       ws_close websockets_connect state_of].

Lemma status_with_connection (st : State) (h : handle) :
  ws_connection (self st) = Some h ->
  status st = Ok (is_open h (net st)) st.
Proof. intros Hws. unfold status. run_m. by rewrite Hws. Qed.

Lemma status_state (st : State) : state_of (status st) = st.
Proof.
  destruct (ws_connection (self st)) as [h|] eqn:Hws.
  - by rewrite (status_with_connection _ _ Hws).
  - by rewrite (status_no_attribute _ Hws).
Qed.

Lemma subscribe_state (topic : string) (st : State) :
  state_of (subscribe topic st) = st \/
  exists h, ws_connection (self st) = Some h /\
            state_of (subscribe topic st) =
              with_sent [(h, join_frame topic)] st.
Proof.
  destruct (ws_connection (self st)) as [h|] eqn:Hws.
  - destruct (is_open h (net st)) eqn:Hopen.
    + right. exists h. by rewrite (subscribe_open _ _ _ Hws Hopen).
    + left. by rewrite (subscribe_closed _ _ _ Hws Hopen).
  - left. by rewrite (subscribe_no_attribute _ _ Hws).
Qed.

Lemma disconnect_state (c : close_outcome) (st : State) :
  state_of (disconnect c st) = st \/
  exists h, state_of (disconnect c st) =
              {| self := with_connected false (self st); heap := heap st;
                 net := mark_closed h (net st); calls := calls st |}.
Proof.
  destruct (ws_connection (self st)) as [h|] eqn:Hws.
  - destruct c.
    + right. exists h. by rewrite (disconnect_closes _ _ Hws).
    + left. by rewrite (disconnect_close_fails _ _ Hws).
  - left. by rewrite (disconnect_no_attribute _ _ Hws).
Qed.

Lemma connect_frame (o : connect_outcome) (st : State) :
  channels (self (state_of (connect o st))) = channels (self st) /\
  heap (state_of (connect o st)) = heap st /\
  calls (state_of (connect o st)) = calls st /\
  wire (net (state_of (connect o st))) = wire (net st).
Proof.
  destruct o as [|[]].
  - by rewrite connect_refused.
  - by rewrite connect_established.
  - by rewrite connect_not_open.
Qed.

Lemma peer_closes_frame (st : State) :
  self (peer_closes st) = self st /\ heap (peer_closes st) = heap st /\
  calls (peer_closes st) = calls st.
Proof. unfold peer_closes. by destruct (ws_connection (self st)). Qed.

Lemma keep_alive_iteration_frame (o : connect_outcome) (st : State) :
  channels (self (state_of (keep_alive_iteration o st))) = channels (self st) /\
  heap (state_of (keep_alive_iteration o st)) = heap st /\
  calls (state_of (keep_alive_iteration o st)) = calls st.
Proof.
  destruct (ws_connection (self st)) as [h|] eqn:Hws.
  - destruct (is_open h (net st)) eqn:Hopen.
    + by rewrite (keep_alive_iteration_open _ _ _ Hws Hopen).
    + rewrite (keep_alive_iteration_closed _ _ _ Hws Hopen).
      destruct (connect_frame o st) as (? & ? & ? & _). done.
  - by rewrite (keep_alive_iteration_no_attribute _ _ Hws).
Qed.

Lemma keep_alive_frame (script : list round) (st : State) :
  channels (self (loop_state (_keep_alive script st))) = channels (self st) /\
  heap (loop_state (_keep_alive script st)) = heap st /\
  calls (loop_state (_keep_alive script st)) = calls st.
Proof.
  revert st. induction script as [|r script IH]; intros st; [done|].
  cbn [_keep_alive].
  set (st0 := if peer_closed r then peer_closes st else st).
  assert (H0 : self st0 = self st /\ heap st0 = heap st /\
               calls st0 = calls st).
  { unfold st0. destruct (peer_closed r); [apply peer_closes_frame|done]. }
  destruct H0 as (Hs0 & Hh0 & Hc0).
  destruct (keep_alive_iteration_frame (reconnect r) st0) as (Hs1 & Hh1 & Hc1).
  destruct (keep_alive_iteration (reconnect r) st0) as [[] st1|e st1];
    simpl in Hs1, Hh1, Hc1.
  - destruct (IH st1) as (Hs2 & Hh2 & Hc2).
    rewrite Hs2, Hh2, Hc2, Hs1, Hh1, Hc1, Hs0, Hh0, Hc0. done.
  - simpl. rewrite Hs1, Hh1, Hc1, Hs0, Hh0, Hc0. done.
Qed.

Lemma step_keep_alive (script : list round) (st : State) :
  step (KeepAlive script) st = loop_state (_keep_alive script st).
Proof. reflexivity. Qed.

Lemma step_registry (o : op) (st : State) :
  registers o = false ->
  channels (self (step o st)) = channels (self st) /\
  heap (step o st) = heap st.
Proof.
  intros Ho.
  destruct o as [c|c| |topic|topic|chan ev cb|frames fin|script| ];
    try discriminate; cbn [step].
  - destruct (connect_frame c st) as (? & ? & _). done.
  - by destruct (disconnect_state c st) as [->|[h ->]].
  - by rewrite status_state.
  - by destruct (subscribe_state topic st) as [->|(h & _ & ->)].
  - destruct (listen_frame frames fin st) as (-> & -> & _). done.
  - fold (loop_state (_keep_alive script st)).
    destruct (keep_alive_frame script st) as (? & ? & _). done.
  - destruct (peer_closes_frame st) as (-> & -> & _). done.
Qed.

Lemma step_calls (o : op) (st : State) :
  listens o = false -> calls (step o st) = calls st.
Proof.
  intros Ho.
  destruct o as [c|c| |topic|topic|chan ev cb|frames fin|script| ];
    try discriminate; cbn [step].
  - by destruct (connect_frame c st) as (_ & _ & ? & _).
  - by destruct (disconnect_state c st) as [->|[h ->]].
  - by rewrite status_state.
  - by destruct (subscribe_state topic st) as [->|(h & _ & ->)].
  - destruct (connected (self st)) eqn:Hc.
    + by rewrite (set_channel_connected _ _ Hc).
    + by rewrite (set_channel_not_connected _ _ Hc).
  - done.
  - fold (loop_state (_keep_alive script st)).
    by destruct (keep_alive_frame script st) as (_ & _ & ?).
  - by destruct (peer_closes_frame st) as (_ & _ & ->).
Qed.

(** X8. The registry and the channel objects outlive the connection: a
    sequence of operations without [set_channel] and [on] (connect,
    disconnect, status, subscribe, listen, heartbeat rounds with their
    reconnections, closures by the peer) leaves both as they were. *)
Theorem registry_outlives_connection (ops : list op) (st : State) :
  Forall (fun o => registers o = false) ops ->
  channels (self (run ops st)) = channels (self st) /\
  heap (run ops st) = heap st.
Proof.
  revert st. induction ops as [|o ops IH]; intros st Hall; [done|].
  inversion Hall as [|? ? Ho Hall']; subst. cbn [run fold_left].
  destruct (IH (step o st) Hall') as (Hc & Hh).
  destruct (step_registry o st Ho) as (Hc' & Hh').
  unfold run in *. by rewrite Hc, Hh, Hc', Hh'.
Qed.

(** X9. User callbacks are called by [listen] only: a sequence of
    operations without [listen] calls none. *)
Theorem callbacks_called_by_listen_only (ops : list op) (st : State) :
  Forall (fun o => listens o = false) ops ->
  calls (run ops st) = calls st.
Proof.
  revert st. induction ops as [|o ops IH]; intros st Hall; [done|].
  inversion Hall as [|? ? Ho Hall']; subst. cbn [run fold_left].
  pose proof (IH (step o st) Hall') as Hc. unfold run in *.
  by rewrite Hc, (step_calls o st Ho).
Qed.

Lemma change_same_setup (s0 : Socket) (st st' : State) :
  change st st' -> same_setup s0 (self st) -> same_setup s0 (self st').
Proof. intros Hc Hs. by destruct Hc. Qed.

(** X10. The attributes that [__init__] sets and no method assigns stay as
    constructed in every reachable state: the URL (with the parameters
    appended when there are any), the parameters, the heartbeat interval,
    and [kept_alive], which is false for ever: nothing marks a running
    heartbeat loop. *)
Theorem setup_never_changes (ops : list op) (u : string)
    (ps : list (string * string)) (hb : nat) :
  let s := self (run ops (fresh u ps hb)) in
  url s = (if bool_decide (ps = []) then u else appendParams u ps) /\
  params s = ps /\ hb_interval s = hb /\ kept_alive s = false.
Proof.
  apply (changes_preserve (fun st => same_setup (Socket__init__ u ps hb) (self st))
           (change_same_setup _) _ _ (run_changes ops (fresh u ps hb))).
  by repeat split.
Qed.

(** ** The wire *)



(** X12. On an open connection, subscribing to a list of topics sends one
    join frame per entry, in order, on that connection, and changes nothing
    else. Nothing is remembered: a topic listed twice is joined twice, and
    no channel is needed or made. *)
Theorem subscribe_sends_one_join_each (topics : list string) (st : State)
    (h : handle) :
  ws_connection (self st) = Some h ->
  is_open h (net st) = true ->
  run (map Subscribe topics) st =
  with_sent (map (fun topic => (h, join_frame topic)) topics) st.
Proof.
  revert st. induction topics as [|topic topics IH]; intros st Hws Hopen.
  - simpl. by rewrite with_sent_nil.
  - cbn [map run fold_left step].
    rewrite (subscribe_open _ _ _ Hws Hopen).
    change (state_of (Ok ?a ?s)) with s.
    pose proof (IH (with_sent [(h, join_frame topic)] st) Hws Hopen) as Hrest.
    unfold run in Hrest. unfold with_sent at 1 in Hrest. unfold join_frame in *.
    rewrite Hrest. by rewrite with_sent_app.
Qed.

(** ** Connection objects *)

(** X13. [connect] closes nothing: a connection object that is open before
    the call is open after it, however the call ends. A successful
    [connect] on a socket whose connection is open therefore leaves the old
    connection open with no reference to it: the socket now holds the new
    one. *)
Theorem connect_leaves_old_connection_open (o : connect_outcome)
    (st : State) (h : handle) :
  is_open h (net st) = true ->
  is_open h (net (state_of (connect o st))) = true /\
  (o = Established true ->
   ws_connection (self (state_of (connect o st))) =
     Some (length (handles (net st))) /\
   length (handles (net st)) <> h).
Proof.
  intros Hopen.
  assert (Hlt : h < length (handles (net st))).
  { unfold is_open in Hopen.
    destruct (handles (net st) !! h) eqn:Hl; [|done].
    by eapply lookup_lt_Some. }
  split.
  - destruct o as [|[]].
    + by rewrite connect_refused.
    + rewrite connect_established. simpl.
      by rewrite (is_open_old (net st) true h Hlt).
    + rewrite connect_not_open. simpl.
      by rewrite (is_open_old (net st) false h Hlt).
  - intros ->. rewrite connect_established. simpl. split; [done|lia].
Qed.

(** X14. [status] follows the connection object, not the [connected]
    flag: it is true right after a successful [connect], false right after
    a [disconnect] that returned, and false once the peer has closed the
    connection, while [connected] is what it was. It changes nothing. *)
Theorem status_follows_connection_object (st : State) :
  (exists st', connect (Established true) st = Ok tt st' /\
               status st' = Ok true st') /\
  (forall h, ws_connection (self st) = Some h ->
     (exists st', disconnect Closes st = Ok tt st' /\
                  status st' = Ok false st') /\
     status (peer_closes st) = Ok false (peer_closes st) /\
     connected (self (peer_closes st)) = connected (self st)).
Proof.
  split.
  - eexists. split; [apply connect_established|].
    erewrite status_with_connection; [|reflexivity]. simpl.
    by rewrite is_open_new.
  - intros h Hws. split; [|split].
    + eexists. split; [by apply disconnect_closes|].
      erewrite status_with_connection; [|simpl; exact Hws]. simpl.
      by rewrite is_open_mark_closed.
    + destruct (peer_closes_connection st h Hws) as (Hws' & Hclosed).
      by rewrite (status_with_connection _ _ Hws'), Hclosed.
    + by rewrite peer_closes_self.
Qed.

(** ** The registry *)

Lemma change_registry_ok (ps : list (string * string)) (st st' : State) :
  change st st' -> registry_ok ps st -> registry_ok ps st'.
Proof.
  intros Hc (Hps & Hwf & Hnodup & Htopic).
  split; [by destruct Hc|]. split; [by eapply change_registry_wf|].
  destruct Hc as [st cs|st h|st h data|st b|st|st h Hh|st topic|st chan ev cb];
    try (split; assumption); simpl.
  - split.
    + intros topic'. unfold channels_append.
      destruct (decide (topic = topic')) as [->|Hne].
      * rewrite lookup_insert_eq. simpl. apply NoDup_app.
        split; [apply Hnodup|]. split; [|apply NoDup_singleton].
        intros a Hin Hin'. apply list_elem_of_singleton in Hin'.
        specialize (Hwf topic' a Hin). lia.
      * rewrite lookup_insert_ne by done. apply Hnodup.
    + intros topic' a c. unfold channels_append.
      destruct (decide (topic = topic')) as [->|Hne].
      * rewrite lookup_insert_eq. simpl. intros Hin Hc.
        apply elem_of_app in Hin as [Hin|Hin].
        -- rewrite lookup_app_l in Hc by by eapply Hwf.
           by eapply Htopic.
        -- apply list_elem_of_singleton in Hin. subst a.
           rewrite list_lookup_middle in Hc by done.
           injection Hc as <-. done.
      * rewrite lookup_insert_ne by done. intros Hin Hc.
        rewrite lookup_app_l in Hc by by eapply Hwf.
        by eapply Htopic.
  - split; [assumption|]. intros topic a c Hin Hc.
    destruct (decide (chan = a)) as [->|Hne].
    + rewrite list_lookup_alter_eq in Hc.
      destruct (heap st !! a) as [c0|] eqn:Hc0; [|done].
      injection Hc as <-. simpl. by eapply Htopic.
    + rewrite list_lookup_alter_ne in Hc by done. by eapply Htopic.
Qed.

Lemma run_registry_ok (ops : list op) (u : string)
    (ps : list (string * string)) (hb : nat) :
  registry_ok ps (run ops (fresh u ps hb)).
Proof.
  eapply (changes_preserve (registry_ok ps) (change_registry_ok ps));
    [apply run_changes|].
  split; [done|]. split; [apply fresh_registry_wf|]. split.
  - intros topic. simpl. rewrite lookup_empty. apply NoDup_nil_2.
  - intros topic a c. simpl. rewrite lookup_empty. simpl.
    by intros ?%not_elem_of_nil.
Qed.

(** X15. On a connected socket, every [set_channel] makes a channel object
    that was not there before and is registered nowhere yet, also when the
    topic already has channels: the new one, without listeners, goes to the
    end of the topic's list. Nothing is sent and no callback is called. *)
Theorem set_channel_makes_new_channel (ops : list op) (u : string)
    (ps : list (string * string)) (hb : nat) (topic : string) :
  let st := run ops (fresh u ps hb) in
  connected (self st) = true ->
  exists st',
    set_channel topic st = Ok (length (heap st)) st' /\
    (forall t, length (heap st) ∉ default [] (channels (self st) !! t)) /\
    heap st' = heap st ++ [{| chan_topic := topic; chan_params := ps;
                              listeners := [] |}] /\
    default [] (channels (self st') !! topic) =
      default [] (channels (self st) !! topic) ++ [length (heap st)] /\
    net st' = net st /\ calls st' = calls st.
Proof.
  intros st Hc.
  destruct (run_registry_ok ops u ps hb) as (Hps & Hwf & _). fold st in Hps, Hwf.
  eexists. split; [by apply set_channel_connected|]. simpl.
  split; [|split; [|split]].
  - intros t Hin. specialize (Hwf t _ Hin). lia.
  - by rewrite Hps.
  - unfold channels_append. by rewrite lookup_insert_eq.
  - done.
Qed.

(** X16. In every reachable state the registry is consistent: under each
    topic no channel object is listed twice, and every address listed is
    that of a channel object made for this topic with the parameters of
    the socket. So a channel is never dispatched to for another topic, and
    never twice for one envelope. *)
Theorem registry_is_consistent (ops : list op) (u : string)
    (ps : list (string * string)) (hb : nat) :
  let st := run ops (fresh u ps hb) in
  (forall topic, NoDup (default [] (channels (self st) !! topic))) /\
  (forall topic a,
      a ∈ default [] (channels (self st) !! topic) ->
      exists c, heap st !! a = Some c /\
                chan_topic c = topic /\ chan_params c = ps).
Proof.
  intros st.
  destruct (run_registry_ok ops u ps hb) as (_ & Hwf & Hnodup & Htopic).
  fold st in Hwf, Hnodup, Htopic. split; [done|].
  intros topic a Hin.
  destruct (lookup_lt_is_Some_2 (heap st) a (Hwf topic a Hin)) as [c Hc].
  exists c. split; [done|]. by eapply Htopic.
Qed.

(** ** A whole session *)

Lemma listen_iteration_deliverable (st : State) (raw : string) :
  deliverable st raw ->
  listen_iteration raw st = Ok Next (record_calls (expected_calls st raw) st).
Proof.
  intros (d & msg & Hd & Hm & Hok). unfold expected_calls. rewrite Hd, Hm.
  case_bool_decide as Hev.
  - rewrite (listen_iteration_reply raw d msg st Hd Hm Hev).
    by rewrite record_calls_nil.
  - destruct Hok as [Hev'|Hret]; [done|].
    rewrite (listen_iteration_dispatch raw d msg st Hd Hm Hev). cbv zeta.
    by rewrite Hret, (until_raise_all _ _ Hret).
Qed.

Lemma listen_loop_deliverable (ws : handle) (frames : list string)
    (st : State) (acc : list (nat * json)) :
  Forall (deliverable st) frames ->
  listen_loop ws frames Pending (record_calls acc st) =
  Ok Listening
     (record_calls (acc ++ concat (map (expected_calls st) frames)) st).
Proof.
  revert acc. induction frames as [|raw rest IH]; intros acc Hall.
  - simpl. by rewrite app_nil_r.
  - inversion Hall as [|? ? Hraw Hrest]; subst.
    rewrite listen_loop_cons.
    rewrite (listen_iteration_deliverable (record_calls acc st) raw Hraw).
    change (expected_calls (record_calls acc st) raw)
      with (expected_calls st raw).
    rewrite record_calls_app, (IH _ Hrest). simpl.
    by rewrite app_assoc.
Qed.

(** X18. While the frames parse and no callback raises, [listen] delivers
    every frame: after any number of them it is still listening, and the
    callbacks called are, frame by frame in arrival order, the matching
    listeners of each frame (none for a reply), with nothing else changed. *)
Theorem listen_delivers_every_frame (frames : list string) (st : State)
    (h : handle) :
  ws_connection (self st) = Some h ->
  Forall (deliverable st) frames ->
  listen frames Pending st =
  Ok Listening
     (record_calls (concat (map (expected_calls st) frames)) st).
Proof.
  intros Hws Hall. rewrite (listen_with_connection _ _ _ _ Hws).
  pose proof (listen_loop_deliverable h frames st [] Hall) as Hloop.
  by rewrite record_calls_nil in Hloop.
Qed.

(** X19. The guard of [set_channel] reads the [connected] flag, not the
    connection: after a [disconnect] that returned, [set_channel] raises
    [NotConnectedError]; after the peer has closed the connection of a
    connected socket, [set_channel] still registers a channel, although
    [status] is false. *)
Theorem set_channel_guard_follows_flag (st : State) (h : handle)
    (topic : string) :
  ws_connection (self st) = Some h ->
  connected (self st) = true ->
  (exists st1,
      disconnect Closes st = Ok tt st1 /\
      set_channel topic st1 = Raise (NotConnectedError "set_channel") st1) /\
  status (peer_closes st) = Ok false (peer_closes st) /\
  exists st2,
    set_channel topic (peer_closes st) = Ok (length (heap st)) st2 /\
    default [] (channels (self st2) !! topic) =
      default [] (channels (self st) !! topic) ++ [length (heap st)].
Proof.
  intros Hws Hc. split; [|split].
  - eexists. split; [by apply disconnect_closes|].
    by apply set_channel_not_connected.
  - destruct (peer_closes_connection st h Hws) as (Hws' & Hclosed).
    by rewrite (status_with_connection _ _ Hws'), Hclosed.
  - destruct (peer_closes_frame st) as (Hself & Hheap & _).
    assert (Hc' : connected (self (peer_closes st)) = true)
      by by rewrite Hself.
    eexists. rewrite (set_channel_connected _ _ Hc'), Hheap.
    split; [reflexivity|]. simpl. rewrite Hself.
    unfold channels_append. by rewrite lookup_insert_eq.
Qed.

End coverage.

(** * [appendParams] *)

Module UrlFacts.
Import Url.

Lemma dict_get_set (k k' v : string) (d : list (string * string)) :
  dict_get k (dict_set k' v d) =
  if bool_decide (k = k') then Some v else dict_get k d.
Proof.
  induction d as [|[k0 v0] d IH]; simpl.
  - by case_bool_decide.
  - destruct (bool_decide_reflect (k' = k0)) as [->|Hne]; simpl.
    + by case_bool_decide.
    + rewrite IH. repeat case_bool_decide; congruence.
Qed.

Lemma dict_set_keys (k v : string) (d : list (string * string)) (x : string) :
  x ∈ (dict_set k v d).*1 <-> x = k \/ x ∈ d.*1.
Proof.
  induction d as [|[k0 v0] d IH]; simpl.
  - rewrite list_elem_of_singleton. split; [by left|].
    by intros [?|?%not_elem_of_nil].
  - case_bool_decide as Hk; simpl.
    + subst k0. rewrite !elem_of_cons. tauto.
    + rewrite !elem_of_cons, IH. tauto.
Qed.

Lemma dict_set_NoDup (k v : string) (d : list (string * string)) :
  NoDup d.*1 -> NoDup (dict_set k v d).*1.
Proof.
  induction d as [|[k0 v0] d IH]; simpl.
  - intros _. apply NoDup_singleton.
  - rewrite NoDup_cons. intros [Hnotin Hnd].
    case_bool_decide as Hk; simpl.
    + subst k0. by apply NoDup_cons.
    + apply NoDup_cons. split; [|by apply IH].
      rewrite dict_set_keys. intros [->|Hin]; done.
Qed.

Lemma dict_get_app (k : string) (d1 d2 : list (string * string)) :
  dict_get k (d1 ++ d2) =
  match dict_get k d1 with
  | Some v => Some v
  | None => dict_get k d2
  end.
Proof.
  induction d1 as [|[k0 v0] d1 IH]; [done|]. simpl.
  by case_bool_decide.
Qed.

Lemma dict_update_get (k : string) (items d : list (string * string)) :
  dict_get k (dict_update d items) =
  match last_value k items with
  | Some v => Some v
  | None => dict_get k d
  end.
Proof.
  revert d. induction items as [|[k0 v0] items IH]; intros d; [done|].
  unfold dict_update in *. cbn [fold_left]. rewrite IH. simpl.
  unfold last_value. rewrite reverse_cons, dict_get_app. simpl.
  destruct (dict_get k (reverse items)); [done|].
  rewrite dict_get_set. by case_bool_decide.
Qed.

Lemma dict_update_NoDup (items d : list (string * string)) :
  NoDup d.*1 -> NoDup (dict_update d items).*1.
Proof.
  revert d. induction items as [|[k0 v0] items IH]; intros d Hd; [done|].
  unfold dict_update in *. cbn [fold_left]. apply IH.
  by apply dict_set_NoDup.
Qed.

Section appendParams.
Variable urlparse : string -> ParseResult.
Variable parse_qsl : string -> list (string * string).
Variable urlencode : list (string * string) -> string.
Variable urlunparse : ParseResult -> string.

(** X17. [appendParams] rebuilds the URL from its own components with only
    the query replaced, by the encoding of a dict in which every key occurs
    once; the value of a key is the one in [params] when [params] has the
    key, and otherwise the value of its last occurrence in the query of the
    URL: the parameters override the URL, and a key repeated in the URL is
    collapsed to its last value. *)
Theorem appendParams_merges_query (u : string) (ps : list (string * string)) :
  exists q,
    appendParams urlparse parse_qsl urlencode urlunparse u ps =
      urlunparse {| scheme := scheme (urlparse u);
                    netloc := netloc (urlparse u);
                    path := path (urlparse u);
                    path_params := path_params (urlparse u);
                    query := urlencode q;
                    fragment := fragment (urlparse u) |} /\
    NoDup q.*1 /\
    forall k,
      dict_get k q =
      match last_value k ps with
      | Some v => Some v
      | None => last_value k (parse_qsl (query (urlparse u)))
      end.
Proof.
  exists (merged_query urlparse parse_qsl u ps). split; [done|]. split.
  - unfold merged_query, dict. do 2 apply dict_update_NoDup. apply NoDup_nil_2.
  - intros k. unfold merged_query, dict. rewrite !dict_update_get. simpl.
    destruct (last_value k ps); [done|].
    by destruct (last_value k (parse_qsl (query (urlparse u)))).
Qed.

End appendParams.

End UrlFacts.

(** * The further properties on concrete sockets *)

Section coverage_scenarios.
Import Scenario.
#[local] Existing Instance Codec.phoenix.

Lemma three_heartbeats :
  _keep_alive [quiet; quiet; quiet] online =
  Running (with_sent [(0, heartbeat_frame); (0, heartbeat_frame);
                      (0, heartbeat_frame)] online).
Proof.
  apply (keep_alive_sends_one_heartbeat_per_round [quiet; quiet; quiet]
           online 0); [reflexivity|reflexivity|].
  repeat constructor.
Defined.

Lemma heartbeats_move_to_new_connection :
  exists st',
    _keep_alive [closure_then_reconnect; quiet; quiet] online = Running st' /\
    ws_connection (self st') = Some 1 /\
    connected (self st') = true /\
    wire (net st') = [(1, heartbeat_frame); (1, heartbeat_frame)].
Proof.
  apply (keep_alive_heartbeats_after_reconnect closure_then_reconnect
           [quiet; quiet] online 0); [reflexivity|reflexivity|reflexivity|].
  repeat constructor.
Defined.

Lemma heartbeat_undoes_disconnect :
  exists st1 st2,
    disconnect Closes online = Ok tt st1 /\
    connected (self st1) = false /\
    _keep_alive [closure_then_reconnect] st1 = Running st2 /\
    connected (self st2) = true /\
    ws_connection (self st2) = Some 1 /\
    transport_usable st2 = true /\
    wire (net st2) = [].
Proof.
  apply (disconnect_does_not_stop_heartbeat closure_then_reconnect online 0);
    reflexivity.
Defined.

Lemma faulty_callback_leaves_listen :
  listen [new_msg; new_msg] Pending two_rooms =
  Raise (CallbackError 1) (record_calls [(1, hi)] two_rooms).
Proof.
  apply (listen_callback_exception two_rooms new_msg
           (JObj [("topic", JStr "room:1"); ("event", JStr "new_msg");
                  ("payload", hi); ("ref", JNull)])
           {| msg_event := "new_msg"; msg_payload := hi;
              msg_ref := JNull; msg_topic := "room:1" |}
           [new_msg] Pending 0 (CallbackError 1)).
  - reflexivity.
  - vm_compute. reflexivity.
  - reflexivity.
  - discriminate.
  - vm_compute. reflexivity.
Defined.

(** A callback that raises [ConnectionClosed] makes [listen] return. *)
Example hangup_callback_returns_listen :
  listen [new_msg; new_msg] Pending hangup_room =
  Ok Returned (record_calls [(3, hi)] hangup_room).
Proof. vm_compute. reflexivity. Qed.

Lemma registry_outlives_reconnection :
  channels (self (run [Disconnect Closes; Connect (Established true);
                       Subscribe "room:1"; PeerCloses;
                       KeepAlive [closure_then_reconnect; quiet];
                       Listen [new_msg] EndOfStream] room))
    = channels (self room) /\
  heap (run [Disconnect Closes; Connect (Established true);
             Subscribe "room:1"; PeerCloses;
             KeepAlive [closure_then_reconnect; quiet];
             Listen [new_msg] EndOfStream] room) = heap room.
Proof.
  apply (registry_outlives_connection
           [Disconnect Closes; Connect (Established true);
            Subscribe "room:1"; PeerCloses;
            KeepAlive [closure_then_reconnect; quiet];
            Listen [new_msg] EndOfStream] room).
  repeat constructor.
Defined.

Lemma no_callback_without_listen :
  calls (run [Subscribe "room:1"; KeepAlive [quiet; closure_then_reconnect];
              Disconnect Closes; SetChannel "room:2"] room) = calls room.
Proof.
  apply (callbacks_called_by_listen_only
           [Subscribe "room:1"; KeepAlive [quiet; closure_then_reconnect];
            Disconnect Closes; SetChannel "room:2"] room).
  repeat constructor.
Defined.

Lemma join_twice :
  run (map Subscribe ["room:1"; "room:2"; "room:1"]) online =
  with_sent [(0, join_frame "room:1"); (0, join_frame "room:2");
             (0, join_frame "room:1")] online.
Proof.
  apply (subscribe_sends_one_join_each ["room:1"; "room:2"; "room:1"]
           online 0); reflexivity.
Defined.

Lemma first_connection_left_open :
  is_open 0 (net reconnected) = true /\
  (Established true = Established true ->
   ws_connection (self reconnected) = Some 1 /\ 1 <> 0).
Proof.
  apply (connect_leaves_old_connection_open (Established true) online 0).
  reflexivity.
Defined.

Lemma second_channel_on_same_topic :
  exists st',
    set_channel "room:1" room = Ok 1 st' /\
    (forall t, 1 ∉ default [] (channels (self room) !! t)) /\
    heap st' = heap room ++ [{| chan_topic := "room:1"; chan_params := [];
                                listeners := [] |}] /\
    default [] (channels (self st') !! "room:1") = [0; 1] /\
    net st' = net room /\ calls st' = calls room.
Proof.
  apply (set_channel_makes_new_channel
           [Connect (Established true); SetChannel "room:1";
            On 0 "new_msg" (recorder 7)]
           "ws://localhost:4000/socket/websocket" [] 5 "room:1").
  reflexivity.
Defined.

Lemma room_frames_deliverable :
  Forall (deliverable room) [new_msg; reply; new_msg].
Proof.
  repeat constructor.
  - exists (JObj [("topic", JStr "room:1"); ("event", JStr "new_msg");
                  ("payload", hi); ("ref", JNull)]),
      {| msg_event := "new_msg"; msg_payload := hi;
         msg_ref := JNull; msg_topic := "room:1" |}.
    split; [vm_compute; reflexivity|]. split; [reflexivity|].
    right. vm_compute. reflexivity.
  - exists (JObj [("topic", JStr "room:1"); ("event", JStr "phx_reply");
                  ("payload", JObj []); ("ref", JNull)]),
      {| msg_event := "phx_reply"; msg_payload := JObj [];
         msg_ref := JNull; msg_topic := "room:1" |}.
    split; [vm_compute; reflexivity|]. split; [reflexivity|].
    left. reflexivity.
  - exists (JObj [("topic", JStr "room:1"); ("event", JStr "new_msg");
                  ("payload", hi); ("ref", JNull)]),
      {| msg_event := "new_msg"; msg_payload := hi;
         msg_ref := JNull; msg_topic := "room:1" |}.
    split; [vm_compute; reflexivity|]. split; [reflexivity|].
    right. vm_compute. reflexivity.
Defined.

Lemma room_session :
  listen [new_msg; reply; new_msg] Pending room =
  Ok Listening (record_calls [(7, hi); (7, hi)] room).
Proof.
  apply (listen_delivers_every_frame [new_msg; reply; new_msg] room 0
           eq_refl room_frames_deliverable).
Defined.

Lemma guard_after_disconnect_and_after_closure :
  (exists st1,
      disconnect Closes online = Ok tt st1 /\
      set_channel "room:1" st1 =
        Raise (NotConnectedError "set_channel") st1) /\
  status dropped = Ok false dropped /\
  exists st2,
    set_channel "room:1" dropped = Ok 0 st2 /\
    default [] (channels (self st2) !! "room:1") = [0].
Proof.
  apply (set_channel_guard_follows_flag online 0 "room:1"); reflexivity.
Defined.

(** The dicts of [appendParams] on an example: the key repeated in the URL
    keeps its first place and its last value, the parameter overrides the
    URL, the new key goes last. *)
Example merge_example :
  Url.dict_update (Url.dict [("a", "1"); ("b", "2"); ("a", "3")])
                  [("b", "9"); ("c", "4")]
  = [("a", "3"); ("b", "9"); ("c", "4")].
Proof. reflexivity. Qed.

End coverage_scenarios.
